(** * A shallow embedding of the gst-coquitts transform element

    The model follows [src/src/filter/imp.rs].  Python objects reached through
    pyo3 are modelled by the fields the element reads from them; the global
    interpreter lock and [prepare_freethreaded_python] have no observable
    effect on the single-threaded behaviour modelled here and are omitted.

    Rust panics are an outcome of their own ([Panic]); a [MutexGuard] that is
    dropped while a panic unwinds poisons its mutex, and a later
    [lock().unwrap()] on a poisoned mutex panics again. *)

From Stdlib Require Import ZArith List String Bool Lia.
Import ListNotations.

Local Open Scope bool_scope.

(** ** Settings and the values handed to the Python backend *)

Record Settings := {
  model : string;
  speaker : option string;
  language : option string;
  voice_cloning_input_file : option string;
  gpu : bool
}.

Definition DEFAULT_MODEL : string := "tts_models/tr/common-voice/glow-tts".
Definition DEFAULT_GPU : bool := false.

(** The keyword arguments of [TTS.api.TTS(...)] built in [init_synth]. *)
Record TtsInitKwargs := {
  model_name : string;
  progress_bar : bool;
  kw_gpu : bool
}.

(** The keyword arguments of [synth.tts(...)]: a Python dict of strings,
    kept in insertion order. *)
Definition Kwargs := list (string * string).

Fixpoint kw_lookup (k : string) (d : Kwargs) : option string :=
  match d with
  | [] => None
  | (k', v) :: d' => if String.eqb k k' then Some v else kw_lookup k d'
  end.

(** What [synth.tts(kwargs)] does: a Python list of floats (already
    extracted as [Vec<f32>]; each [f32] is kept as its 32-bit pattern), a
    value that is not a list, or a raised exception. *)
Inductive TtsResult :=
| TtsList (samples : list Z)
| TtsNotList
| TtsErr.

(** A constructed [TTS] object, by the attributes the element reads. *)
Record Synth := {
  synth_id : nat;
  is_multi_lingual : bool;
  is_multi_speaker : bool;
  output_sample_rate : Z;     (* synth.synthesizer.output_sample_rate *)
  tts : Kwargs -> TtsResult
}.

(** The Python module [TTS.api]: [TTS(kwargs)] returns an object, or
    raises ([None]), in which case the [unwrap] panics. *)
Record Backend := {
  construct : TtsInitKwargs -> option Synth
}.

(** The host the element runs on: whether the [coquitts] debug category is
    enabled at DEBUG level (the [debug!] arguments are only evaluated then),
    the byte order of the machine, and whether [Buffer::with_size] succeeds. *)
Record Env := {
  debug_on : bool;
  host_le : bool;
  alloc_ok : bool
}.

(** ** Buffers, results and panics *)

(** A queued input buffer: its bytes and whether [map_readable] succeeds.
    Rocq strings are byte sequences, so the payload is a [string]. *)
Record InBuffer := {
  payload : string;
  readable : bool
}.

Inductive GenerateOutputSuccess :=
| OutBuffer (bytes : list Z)
| NoOutput.

Inductive FlowError := FlowError_Error.

Inductive result (A E : Type) :=
| Ok (a : A)
| Err (e : E).
Arguments Ok {A E} a.
Arguments Err {A E} e.

Inductive PanicReason :=
| PoisonedLock          (* lock().unwrap() on a poisoned mutex *)
| UnwrapFailed          (* unwrap() of a Python error / failed downcast *)
| MultiLingualPanic     (* "This model is multi-lingual ..." *)
| MultiSpeakerPanic     (* "This model is multi-speaker ..." *)
| SliceOutOfRange.      (* &audio[..32] with fewer than 32 samples *)

(** Calls made into the Python backend, recorded in order. *)
Inductive Event :=
| EvConstruct (kw : TtsInitKwargs)
| EvOutputSampleRate
| EvTts (kw : Kwargs).

(** ** Element state *)

Record State := {
  settings : Settings;
  settings_poisoned : bool;
  synth : option Synth;
  synth_poisoned : bool;
  queued : option InBuffer;
  calls : list Event
}.

Definition set_settings (s : Settings) (st : State) : State :=
  {| settings := s; settings_poisoned := settings_poisoned st; synth := synth st;
     synth_poisoned := synth_poisoned st; queued := queued st; calls := calls st |}.
Definition poison_settings (st : State) : State :=
  {| settings := settings st; settings_poisoned := true; synth := synth st;
     synth_poisoned := synth_poisoned st; queued := queued st; calls := calls st |}.
Definition set_synth (o : option Synth) (st : State) : State :=
  {| settings := settings st; settings_poisoned := settings_poisoned st; synth := o;
     synth_poisoned := synth_poisoned st; queued := queued st; calls := calls st |}.
Definition poison_synth (st : State) : State :=
  {| settings := settings st; settings_poisoned := settings_poisoned st; synth := synth st;
     synth_poisoned := true; queued := queued st; calls := calls st |}.
Definition set_queued (q : option InBuffer) (st : State) : State :=
  {| settings := settings st; settings_poisoned := settings_poisoned st; synth := synth st;
     synth_poisoned := synth_poisoned st; queued := q; calls := calls st |}.
Definition add_call (e : Event) (st : State) : State :=
  {| settings := settings st; settings_poisoned := settings_poisoned st; synth := synth st;
     synth_poisoned := synth_poisoned st; queued := queued st; calls := calls st ++ [e] |}.

(** [CoquittsFilter::new]. *)
Definition new_state : State :=
  {| settings := {| model := DEFAULT_MODEL; speaker := None; language := None;
                    voice_cloning_input_file := None; gpu := DEFAULT_GPU |};
     settings_poisoned := false; synth := None; synth_poisoned := false;
     queued := None; calls := [] |}.

(** ** A state monad with panics *)

Inductive Exec (A : Type) :=
| Done (a : A)
| Panic (p : PanicReason).
Arguments Done {A} a.
Arguments Panic {A} p.

Definition M (A : Type) := State -> Exec A * State.

Definition ret {A} (a : A) : M A := fun st => (Done a, st).
Definition bind {A B} (m : M A) (k : A -> M B) : M B :=
  fun st => match m st with
            | (Done a, st') => k a st'
            | (Panic p, st') => (Panic p, st')
            end.
Definition panic {A} (p : PanicReason) : M A := fun st => (Panic p, st).
Definition modify (f : State -> State) : M unit := fun st => (Done tt, f st).
Definition gets {A} (f : State -> A) : M A := fun st => (Done (f st), st).

Notation "x <- m ;; k" := (bind m (fun x => k))
  (at level 61, m at next level, right associativity).
Notation "m ;;; k" := (bind m (fun _ => k))
  (at level 61, right associativity).

(** [Option::is_none]. *)
Definition is_none {A} (o : option A) : bool :=
  match o with None => true | Some _ => false end.

Definition unwrap {A} (o : option A) : M A :=
  match o with Some a => ret a | None => panic UnwrapFailed end.

(** [let g = self.settings.lock().unwrap(); k(g)]: the guard is held while
    [k] runs, so a panic in [k] poisons the mutex. *)
Definition with_settings_lock {A} (k : Settings -> M A) : M A :=
  fun st =>
    if settings_poisoned st then (Panic PoisonedLock, st)
    else match k (settings st) st with
         | (Panic p, st') => (Panic p, poison_settings st')
         | r => r
         end.

(** The same for [self.synth.lock().unwrap()]. *)
Definition with_synth_lock {A} (k : option Synth -> M A) : M A :=
  fun st =>
    if synth_poisoned st then (Panic PoisonedLock, st)
    else match k (synth st) st with
         | (Panic p, st') => (Panic p, poison_synth st')
         | r => r
         end.

(** ** [CoquittsFilter::init_synth] *)

Definition init_synth (be : Backend) : M Synth :=
  kwargs <- with_settings_lock (fun s =>
              ret {| model_name := model s; progress_bar := false; kw_gpu := gpu s |}) ;;
  modify (add_call (EvConstruct kwargs)) ;;;
  synth <- unwrap (construct be kwargs) ;;
  with_settings_lock (fun s =>
    (if is_none (language s) && is_multi_lingual synth
     then panic MultiLingualPanic else ret tt) ;;;
    (if is_none (speaker s) && is_multi_speaker synth
     then panic MultiSpeakerPanic else ret tt)) ;;;
  ret synth.

(** ** [CoquittsFilter::with_synth]: the synth mutex is held across the
    initialisation and the call of [f]. *)

Definition with_synth {R} (be : Backend) (f : Synth -> M R) : M R :=
  with_synth_lock (fun cur =>
    s <- match cur with
         | None => s <- init_synth be ;; modify (set_synth (Some s)) ;;; ret s
         | Some s => ret s
         end ;;
    f s).

(** ** Decoding and encoding *)

Definition byte_of_ascii (a : Ascii.ascii) : Z := Z.of_N (Ascii.N_of_ascii a).
Definition bytes_of_string (s : string) : list Z := map byte_of_ascii (list_ascii_of_string s).

Local Open Scope Z_scope.

Definition in_range (lo hi b : Z) : bool := (lo <=? b) && (b <=? hi).
Definition is_cont (b : Z) : bool := in_range 0x80 0xBF b.

(** The acceptance test of [str::from_utf8]: shortest forms only, no
    surrogates, nothing above U+10FFFF. *)
Fixpoint utf8_valid (l : list Z) : bool :=
  match l with
  | [] => true
  | b0 :: r =>
    if b0 <? 0x80 then utf8_valid r
    else if in_range 0xC2 0xDF b0 then
      match r with
      | b1 :: r1 => is_cont b1 && utf8_valid r1
      | _ => false
      end
    else if in_range 0xE0 0xEF b0 then
      match r with
      | b1 :: b2 :: r2 =>
        (if b0 =? 0xE0 then in_range 0xA0 0xBF b1
         else if b0 =? 0xED then in_range 0x80 0x9F b1
         else is_cont b1) && is_cont b2 && utf8_valid r2
      | _ => false
      end
    else if in_range 0xF0 0xF4 b0 then
      match r with
      | b1 :: b2 :: b3 :: r3 =>
        (if b0 =? 0xF0 then in_range 0x90 0xBF b1
         else if b0 =? 0xF4 then in_range 0x80 0x8F b1
         else is_cont b1) && is_cont b2 && is_cont b3 && utf8_valid r3
      | _ => false
      end
    else false
  end.

(** The four bytes of one [f32] (given by its bit pattern) in memory. *)
Definition f32_bytes (le : bool) (w : Z) : list Z :=
  let b i := Z.land (Z.shiftr w (8 * i)) 255 in
  if le then [b 0; b 1; b 2; b 3] else [b 3; b 2; b 1; b 0].

(** [AsByteSlice::as_byte_slice] on a [Vec<f32>]: the vector's memory,
    so native byte order. *)
Definition as_byte_slice (le : bool) (audio : list Z) : list Z :=
  flat_map (f32_bytes le) audio.

(** The sequential little-endian encoding, as the spec words it. *)
Definition f32_le_encoding (audio : list Z) : list Z :=
  flat_map (fun w => [Z.land w 255; Z.land (Z.shiftr w 8) 255;
                      Z.land (Z.shiftr w 16) 255; Z.land (Z.shiftr w 24) 255]) audio.

Local Close Scope Z_scope.

(** ** [BaseTransformImpl::generate_output] *)

(** [self.take_queued_buffer()]. *)
Definition take_queued_buffer : M (option InBuffer) :=
  fun st => (Done (queued st), set_queued None st).

(** The dict built inside the [with_synth] closure. *)
Definition tts_kwargs (text : string) (g : Settings) : Kwargs :=
  [("text"%string, text)] ++
  match speaker g with Some sp => [("speaker"%string, sp)] | None => [] end ++
  match language g with Some l => [("language"%string, l)] | None => [] end ++
  match voice_cloning_input_file g with Some f => [("speaker_wav"%string, f)] | None => [] end.

(** The closure passed to [with_synth] by [generate_output]. *)
Definition synthesise (text : string) (s : Synth) : M (option (list Z)) :=
  kwargs <- with_settings_lock (fun g => ret (tts_kwargs text g)) ;;
  modify (add_call (EvTts kwargs)) ;;;
  match tts s kwargs with
  | TtsList audio => ret (Some audio)
  | TtsNotList => panic UnwrapFailed
  | TtsErr => ret None
  end.

Definition generate_output (env : Env) (be : Backend)
  : M (result GenerateOutputSuccess FlowError) :=
  mb <- take_queued_buffer ;;
  match mb with
  | None => ret (Ok NoOutput)
  | Some buffer =>
    if negb (readable buffer) then ret (Err FlowError_Error) else
    let text := payload buffer in
    if negb (utf8_valid (bytes_of_string text)) then ret (Err FlowError_Error) else
    maybe_audio <- with_synth be (synthesise text) ;;
    match maybe_audio with
    | Some audio =>
      (* debug!(..., "first 32 samples: {:?}", &audio[..32]) *)
      (if debug_on env && Nat.ltb (List.length audio) 32
       then panic SliceOutOfRange else ret tt) ;;;
      let audio_bytes := as_byte_slice (host_le env) audio in
      if negb (alloc_ok env) then ret (Err FlowError_Error)
      else ret (Ok (OutBuffer audio_bytes))
    | None => ret (Ok NoOutput)
    end
  end.

(** ** Capabilities

    A GStreamer caps value: a list of structures (or ANY), each a media type
    name and fields holding a fixed value, an integer range or a list of
    fixed values.  The intersection follows [gst_caps_intersect_first],
    [gst_structure_intersect] and [gst_value_intersect]; caps features are all
    system memory here and are left out. *)

Inductive Atom :=
| AInt (z : Z)
| AStr (s : string).

Definition atom_eqb (a b : Atom) : bool :=
  match a, b with
  | AInt x, AInt y => Z.eqb x y
  | AStr x, AStr y => String.eqb x y
  | _, _ => false
  end.

Inductive Value :=
| VAtom (a : Atom)
| VIntRange (lo hi : Z)
| VList (l : list Atom).

Definition value_eqb (v w : Value) : bool :=
  match v, w with
  | VAtom a, VAtom b => atom_eqb a b
  | VIntRange l1 h1, VIntRange l2 h2 => Z.eqb l1 l2 && Z.eqb h1 h2
  | VList l1, VList l2 =>
    Nat.eqb (List.length l1) (List.length l2)
    && forallb (fun p => atom_eqb (fst p) (snd p)) (combine l1 l2)
  | _, _ => false
  end.

Record Structure := {
  st_name : string;
  st_fields : list (string * Value)
}.

Inductive Caps :=
| CapsAny
| CapsList (l : list Structure).

(** Whether a fixed value lies in a value. *)
Definition atom_in (a : Atom) (v : Value) : bool :=
  match v with
  | VAtom b => atom_eqb a b
  | VIntRange lo hi => match a with AInt z => in_range lo hi z | AStr _ => false end
  | VList l => existsb (atom_eqb a) l
  end.

(** [gst_value_intersect_list]: the first match is moved in, the second is
    merged with it ([gst_value_list_merge], which drops a duplicate), later
    ones are appended. *)
Definition list_acc (acc : option Value) (a : Atom) : option Value :=
  match acc with
  | None => Some (VAtom a)
  | Some (VAtom b) => if atom_eqb b a then Some (VAtom b) else Some (VList [b; a])
  | Some (VList l) => Some (VList (l ++ [a]))
  | Some v => Some v
  end.

Definition intersect_list (l : list Atom) (v : Value) : option Value :=
  fold_left (fun acc a => if atom_in a v then list_acc acc a else acc) l None.

Definition value_intersect (v1 v2 : Value) : option Value :=
  match v1, v2 with
  | VList l, _ => intersect_list l v2
  | _, VList l => intersect_list l v1
  | VAtom a, _ => if atom_in a v2 then Some (VAtom a) else None
  | _, VAtom b => if atom_in b v1 then Some (VAtom b) else None
  | VIntRange lo1 hi1, VIntRange lo2 hi2 =>
    let lo := Z.max lo1 lo2 in
    let hi := Z.min hi1 hi2 in
    if Z.ltb hi lo then None
    else if Z.eqb lo hi then Some (VAtom (AInt lo))
    else Some (VIntRange lo hi)
  end.

Definition value_is_subset (v1 v2 : Value) : bool :=
  match value_intersect v1 v2 with
  | Some w => value_eqb w v1
  | None => false
  end.

Fixpoint field_lookup (k : string) (fs : list (string * Value)) : option Value :=
  match fs with
  | [] => None
  | (k', v) :: fs' => if String.eqb k k' then Some v else field_lookup k fs'
  end.

(** The fields of the first structure, each intersected with the field of the
    same name in [fs2] when there is one. *)
Fixpoint intersect_fields (fs1 fs2 : list (string * Value))
  : option (list (string * Value)) :=
  match fs1 with
  | [] => Some []
  | (k, v1) :: fs1' =>
    match field_lookup k fs2 with
    | Some v2 =>
      match value_intersect v1 v2 with
      | Some v => option_map (cons (k, v)) (intersect_fields fs1' fs2)
      | None => None
      end
    | None => option_map (cons (k, v1)) (intersect_fields fs1' fs2)
    end
  end.

(** [gst_structure_intersect]. *)
Definition structure_intersect (s1 s2 : Structure) : option Structure :=
  if negb (String.eqb (st_name s1) (st_name s2)) then None else
  match intersect_fields (st_fields s1) (st_fields s2) with
  | None => None
  | Some fs =>
    Some {| st_name := st_name s1;
            st_fields := fs ++ filter (fun kv => is_none (field_lookup (fst kv) (st_fields s1)))
                                      (st_fields s2) |}
  end.

(** [gst_structure_is_subset]. *)
Definition structure_is_subset (sub sup : Structure) : bool :=
  String.eqb (st_name sub) (st_name sup)
  && forallb (fun kv => match field_lookup (fst kv) (st_fields sub) with
                        | Some v => value_is_subset v (snd kv)
                        | None => false
                        end) (st_fields sup).

(** [gst_caps_merge_structure_full]: a structure already covered is dropped. *)
Definition merge_structure (dest : list Structure) (s : Structure) : list Structure :=
  if existsb (structure_is_subset s) dest then dest else dest ++ [s].

(** [gst_caps_intersect_first caps1 caps2]: the structures of [caps1] in
    their order, each against the structures of [caps2] in theirs. *)
Definition intersect_first (caps1 caps2 : Caps) : Caps :=
  match caps1, caps2 with
  | CapsList [], _ | _, CapsList [] => CapsList []
  | CapsAny, _ => caps2
  | _, CapsAny => caps1
  | CapsList l1, CapsList l2 =>
    CapsList (fold_left (fun dest s1 =>
                fold_left (fun dest s2 =>
                  match structure_intersect s1 s2 with
                  | Some i => merge_structure dest i
                  | None => dest
                  end) l2 dest) l1 [])
  end.

(** [SINK_CAPS]: [text/x-raw, format=utf8]. *)
Definition text_structure : Structure :=
  {| st_name := "text/x-raw"; st_fields := [("format"%string, VAtom (AStr "utf8"))] |}.
Definition SINK_CAPS : Caps := CapsList [text_structure].

(** [AUDIO_FORMAT_F32] is the native-endian 32-bit float format. *)
Definition AUDIO_FORMAT_F32 (le : bool) : string := if le then "F32LE" else "F32BE".

(** [src_caps_builder().rate(r).build()]: [AudioCapsBuilder::new()] gives
    [audio/x-raw] with rate, channels, layout and format fields, of which
    [format], [channels] and [rate] are then fixed. *)
Definition audio_structure (le : bool) (rate : Z) : Structure :=
  {| st_name := "audio/x-raw";
     st_fields := [("rate"%string, VAtom (AInt rate));
                   ("channels"%string, VAtom (AInt 1));
                   ("layout"%string, VList [AStr "interleaved"; AStr "non-interleaved"]);
                   ("format"%string, VAtom (AStr (AUDIO_FORMAT_F32 le)))] |}.

(** ** [BaseTransformImpl::transform_caps] *)

Inductive PadDirection := Unknown | Src | Sink.

Definition pad_direction_eqb (a b : PadDirection) : bool :=
  match a, b with
  | Unknown, Unknown | Src, Src | Sink, Sink => true
  | _, _ => false
  end.

(** [.extract::<u64>().unwrap()]. *)
Definition extract_u64 (x : Z) : M Z :=
  if in_range 0 (2 ^ 64 - 1) x then ret x else panic UnwrapFailed.

(** [x as i32] for a [u64]: the low 32 bits, two's complement. *)
Definition u64_as_i32 (x : Z) : Z :=
  let w := Z.land x (2 ^ 32 - 1) in
  if Z.ltb w (2 ^ 31) then w else w - 2 ^ 32.

Definition transform_caps (env : Env) (be : Backend) (direction : PadDirection)
  (maybe_filter : option Caps) : M (option Caps) :=
  caps <- (if pad_direction_eqb direction Src then ret SINK_CAPS
           else
             sample_rate <- with_synth be (fun s =>
               modify (add_call EvOutputSampleRate) ;;;
               extract_u64 (output_sample_rate s)) ;;
             ret (CapsList [audio_structure (host_le env) (u64_as_i32 sample_rate)])) ;;
  ret (Some (match maybe_filter with
             | Some filter => intersect_first filter caps
             | None => caps
             end)).

(** ** [ObjectImpl::set_property]

    A GValue of type string may hold NULL; [value.get::<String>()] then
    fails and the [unwrap] panics while the settings guard is held.  The
    method is called from GLib's [extern "C"] [set_property] trampoline,
    which does not catch the unwind, so such a panic aborts the process:
    the state the model leaves after it is never observed by a later call,
    and no property below is stated about it. *)

Inductive Property :=
| PModel (v : option string)
| PSpeaker (v : option string)
| PLanguage (v : option string)
| PVoiceCloningInputFile (v : option string)
| PUseGpu (v : bool).

Definition set_property (p : Property) : M unit :=
  with_settings_lock (fun g =>
    match p with
    | PModel v =>
      m <- unwrap v ;;
      modify (set_settings {| model := m; speaker := speaker g; language := language g;
                              voice_cloning_input_file := voice_cloning_input_file g;
                              gpu := gpu g |})
    | PSpeaker v =>
      modify (set_settings {| model := model g; speaker := v; language := language g;
                              voice_cloning_input_file := voice_cloning_input_file g;
                              gpu := gpu g |})
    | PLanguage v =>
      modify (set_settings {| model := model g; speaker := speaker g; language := v;
                              voice_cloning_input_file := voice_cloning_input_file g;
                              gpu := gpu g |})
    | PVoiceCloningInputFile v =>
      modify (set_settings {| model := model g; speaker := speaker g; language := language g;
                              voice_cloning_input_file := v; gpu := gpu g |})
    | PUseGpu v =>
      modify (set_settings {| model := model g; speaker := speaker g; language := language g;
                              voice_cloning_input_file := voice_cloning_input_file g;
                              gpu := v |})
    end).

(** ** The calls the element receives

    [OpSubmit] is [BaseTransform]'s default [submit_input_buffer], which
    queues the buffer for [take_queued_buffer]. *)

Inductive Op :=
| OpSubmit (b : InBuffer)
| OpGenerate
| OpTransformCaps (direction : PadDirection) (filter : option Caps)
| OpSetProperty (p : Property).

Inductive OpResult :=
| RFlow (r : result unit FlowError)
| RGen (r : result GenerateOutputSuccess FlowError)
| RCaps (c : option Caps)
| RUnit.

Definition run_op (env : Env) (be : Backend) (op : Op) : M OpResult :=
  match op with
  | OpSubmit b => modify (set_queued (Some b)) ;;; ret (RFlow (Ok tt))
  | OpGenerate => r <- generate_output env be ;; ret (RGen r)
  | OpTransformCaps d f => c <- transform_caps env be d f ;; ret (RCaps c)
  | OpSetProperty p => set_property p ;;; ret RUnit
  end.

(** The state after a sequence of calls; a call that panics leaves the state
    its unwinding produced (poisoned mutexes included). *)
Fixpoint run_ops (env : Env) (be : Backend) (ops : list Op) (st : State) : State :=
  match ops with
  | [] => st
  | op :: ops' => run_ops env be ops' (snd (run_op env be op st))
  end.

(** ** The gstreamer-rs trampolines

    The [BaseTransform] virtual methods of a Rust subclass run inside
    [gst::panic_to_error!]: a panic is caught, the element is flagged as
    panicked, an error message is posted, and the method's fallback value is
    returned ([FlowError::Error] for [submit_input_buffer] and
    [generate_output], no caps for [transform_caps]).  Once the flag is set
    the implementation is not run again: every call posts the generic
    "panicked" error and returns the fallback. *)

Record Element := {
  imp : State;
  panicked : bool;
  bus : list (option PanicReason)   (* posted error messages *)
}.

Definition panic_to_error {A} (fallback : A) (m : M A) (e : Element) : A * Element :=
  if panicked e then (fallback, {| imp := imp e; panicked := true; bus := bus e ++ [None] |})
  else match m (imp e) with
       | (Done a, st') => (a, {| imp := st'; panicked := false; bus := bus e |})
       | (Panic p, st') => (fallback, {| imp := st'; panicked := true; bus := bus e ++ [Some p] |})
       end.

Inductive Call :=
| CallSubmit (b : InBuffer)
| CallGenerate
| CallTransformCaps (direction : PadDirection) (filter : option Caps).

Definition fallback_of (c : Call) : OpResult :=
  match c with
  | CallSubmit _ => RFlow (Err FlowError_Error)
  | CallGenerate => RGen (Err FlowError_Error)
  | CallTransformCaps _ _ => RCaps None
  end.

Definition vfunc (env : Env) (be : Backend) (c : Call) (e : Element) : OpResult * Element :=
  match c with
  | CallSubmit b => panic_to_error (fallback_of c) (run_op env be (OpSubmit b)) e
  | CallGenerate => panic_to_error (fallback_of c) (run_op env be OpGenerate) e
  | CallTransformCaps d f => panic_to_error (fallback_of c) (run_op env be (OpTransformCaps d f)) e
  end.

Fixpoint run_calls (env : Env) (be : Backend) (cs : list Call) (e : Element)
  : list OpResult * Element :=
  match cs with
  | [] => ([], e)
  | c :: cs' =>
    let (r, e') := vfunc env be c e in
    let (rs, e'') := run_calls env be cs' e' in
    (r :: rs, e'')
  end.

Definition new_element (st : State) : Element :=
  {| imp := st; panicked := false; bus := [] |}.

(** ** Observations used by the statements below *)

(** How many times the backend was constructed. *)
Fixpoint count_constructs (l : list Event) : nat :=
  match l with
  | [] => 0
  | EvConstruct _ :: l' => S (count_constructs l')
  | _ :: l' => count_constructs l'
  end.

(** Every structure of the caps carries [rate] fixed to [r]. *)
Definition caps_rate_is (c : Caps) (r : Z) : Prop :=
  match c with
  | CapsAny => False
  | CapsList l => forall s, In s l -> field_lookup "rate" (st_fields s) = Some (VAtom (AInt r))
  end.

(** The keyword arguments of the construction of the backend. *)
Definition init_kwargs (g : Settings) : TtsInitKwargs :=
  {| model_name := model g; progress_bar := false; kw_gpu := gpu g |}.

(** The panic [init_synth] raises on a configuration the backend rejects. *)
Definition config_panic (g : Settings) (h : Synth) : PanicReason :=
  if is_none (language g) && is_multi_lingual h then MultiLingualPanic else MultiSpeakerPanic.

(** The backend session is ready: constructed, and neither mutex poisoned. *)
Definition ready (st : State) (h : Synth) : Prop :=
  synth st = Some h /\ synth_poisoned st = false /\ settings_poisoned st = false.

(** The i32 that the [rate] field can hold. *)
Definition i32_max : Z := 2 ^ 31 - 1.

(** [SRC_CAPS], the src pad template: [src_caps_builder().build()], with the
    rate range [AudioCapsBuilder::new()] leaves, [1] to [i32::MAX]. *)
Definition src_template_structure (le : bool) : Structure :=
  {| st_name := "audio/x-raw";
     st_fields := [("rate"%string, VIntRange 1 i32_max);
                   ("channels"%string, VAtom (AInt 1));
                   ("layout"%string, VList [AStr "interleaved"; AStr "non-interleaved"]);
                   ("format"%string, VAtom (AStr (AUDIO_FORMAT_F32 le)))] |}.
Definition SRC_CAPS (le : bool) : Caps := CapsList [src_template_structure le].

(** ** [ObjectImpl::property] *)

Inductive PropName := NModel | NSpeaker | NLanguage | NVoiceCloningInputFile | NUseGpu.

(** A property value: a (nullable) string or a boolean. *)
Inductive PropValue :=
| PVString (v : option string)
| PVBool (b : bool).

Definition property (n : PropName) : M PropValue :=
  with_settings_lock (fun g =>
    ret (match n with
         | NModel => PVString (Some (model g))
         | NSpeaker => PVString (speaker g)
         | NLanguage => PVString (language g)
         | NVoiceCloningInputFile => PVString (voice_cloning_input_file g)
         | NUseGpu => PVBool (gpu g)
         end)).

(** The property a [set_property] call writes, and the value it writes. *)
Definition property_name (p : Property) : PropName :=
  match p with
  | PModel _ => NModel
  | PSpeaker _ => NSpeaker
  | PLanguage _ => NLanguage
  | PVoiceCloningInputFile _ => NVoiceCloningInputFile
  | PUseGpu _ => NUseGpu
  end.

Definition property_value (p : Property) : PropValue :=
  match p with
  | PModel v | PSpeaker v | PLanguage v | PVoiceCloningInputFile v => PVString v
  | PUseGpu b => PVBool b
  end.

(** [f32::from_ne_bytes] on four bytes, giving back the bit pattern. *)
Definition f32_from_bytes (le : bool) (b0 b1 b2 b3 : Z) : Z :=
  if le then (b0 + b1 * 256 + b2 * 65536 + b3 * 16777216)%Z
  else (b3 + b2 * 256 + b1 * 65536 + b0 * 16777216)%Z.

(** Reading a byte buffer back as consecutive native-endian [f32]s. *)
Fixpoint from_byte_slice (le : bool) (bytes : list Z) : list Z :=
  match bytes with
  | b0 :: b1 :: b2 :: b3 :: r => f32_from_bytes le b0 b1 b2 b3 :: from_byte_slice le r
  | _ => []
  end.

(** ** Sample inputs *)

(** [0.1], [-0.2] and [0.05] as [f32] bit patterns. *)
Definition sample_f32 : list Z := [0x3DCCCCCD; 0xBE4CCCCD; 0x3D4CCCCD]%Z.

(** A single-speaker, single-language model at 22050 Hz that synthesises
    ["hello"] into [sample_f32] and raises on any other text. *)
Definition sample_synth : Synth :=
  {| synth_id := 1; is_multi_lingual := false; is_multi_speaker := false;
     output_sample_rate := 22050%Z;
     tts := fun kw => match kw_lookup "text" kw with
                      | Some t => if String.eqb t "hello" then TtsList sample_f32 else TtsErr
                      | None => TtsErr
                      end |}.

Definition sample_backend : Backend := {| construct := fun _ => Some sample_synth |}.

Definition hello_buffer : InBuffer := {| payload := "hello"; readable := true |}.
Definition bad_buffer : InBuffer := {| payload := "bad"; readable := true |}.

(** A freshly created element whose session is ready, with [q] queued. *)
Definition ready_state (q : option InBuffer) : State :=
  set_synth (Some sample_synth) (set_queued q new_state).

Definition env_quiet_le : Env := {| debug_on := false; host_le := true; alloc_ok := true |}.
Definition env_quiet_be : Env := {| debug_on := false; host_le := false; alloc_ok := true |}.
Definition env_debug_le : Env := {| debug_on := true; host_le := true; alloc_ok := true |}.

(** A multi-lingual model, which [init_synth] rejects without [language]. *)
Definition multilingual_synth : Synth :=
  {| synth_id := 2; is_multi_lingual := true; is_multi_speaker := false;
     output_sample_rate := 24000%Z; tts := fun _ => TtsErr |}.

Definition multilingual_backend : Backend := {| construct := fun _ => Some multilingual_synth |}.

(** ** Proofs *)

Ltac case_match :=
  match goal with
  | |- context [match ?x with _ => _ end] => destruct x eqn:?
  end.

Lemma set_queued_same (st : State) : set_queued (queued st) st = st.
Proof. destruct st; reflexivity. Qed.

Lemma atom_eqb_eq (a b : Atom) : atom_eqb a b = true -> a = b.
Proof.
  destruct a, b; simpl; try discriminate.
  - intros H. apply Z.eqb_eq in H. now subst.
  - intros H. apply String.eqb_eq in H. now subst.
Qed.

Lemma atom_eqb_refl (a : Atom) : atom_eqb a a = true.
Proof. destruct a; simpl; [apply Z.eqb_refl | apply String.eqb_refl]. Qed.

(** [with_synth] on a ready session runs the closure on the stored handle. *)
Lemma with_synth_some {R} (be : Backend) (f : Synth -> M R) (st : State) (h : Synth) :
  synth st = Some h -> synth_poisoned st = false ->
  with_synth be f st =
  match f h st with
  | (Panic p, st') => (Panic p, poison_synth st')
  | r => r
  end.
Proof.
  intros Hs Hp. unfold with_synth, with_synth_lock, bind, ret.
  rewrite Hp, Hs. reflexivity.
Qed.


(** C7: with nothing queued, [generate_output] returns [NoOutput] and leaves
    the state untouched: no backend call, no initialisation. *)
Theorem generate_output_empty_queue (env : Env) (be : Backend) (st : State) :
  queued st = None ->
  generate_output env be st = (Done (Ok NoOutput), st).
Proof.
  intros Hq. unfold generate_output, take_queued_buffer, bind, ret.
  rewrite Hq, <- Hq, set_queued_same. reflexivity.
Qed.

Lemma generate_output_empty_queue_witness :
  queued new_state = None /\
  generate_output {| debug_on := true; host_le := true; alloc_ok := true |}
    {| construct := fun _ => None |} new_state = (Done (Ok NoOutput), new_state).
Proof.
  split; [reflexivity|]. apply generate_output_empty_queue. reflexivity.
Defined.

(** C6: a queued buffer that is not valid UTF-8 gives [FlowError::Error]
    (not [NoOutput]); the only change to the state is that the buffer is
    taken, so the backend is neither called nor initialised. *)
Theorem generate_output_invalid_utf8 (env : Env) (be : Backend) (st : State) (b : InBuffer) :
  queued st = Some b ->
  utf8_valid (bytes_of_string (payload b)) = false ->
  generate_output env be st = (Done (Err FlowError_Error), set_queued None st).
Proof.
  intros Hq Hu. unfold generate_output, take_queued_buffer, bind, ret.
  rewrite Hq. destruct (readable b); simpl; [rewrite Hu|]; reflexivity.
Qed.

Lemma generate_output_invalid_utf8_witness :
  let st := set_queued (Some {| payload := String (Ascii.ascii_of_nat 255) EmptyString;
                                readable := true |}) new_state in
  generate_output {| debug_on := false; host_le := true; alloc_ok := true |}
    {| construct := fun _ => None |} st = (Done (Err FlowError_Error), set_queued None st).
Proof.
  intros st. apply (generate_output_invalid_utf8 _ _ st
    {| payload := String (Ascii.ascii_of_nat 255) EmptyString; readable := true |});
    vm_compute; reflexivity.
Defined.

(** C4: negotiating the text side returns the fixed [text/x-raw,
    format=utf8] caps, intersected with the filter when there is one,
    without any change to the state (no backend access).  The
    intersection takes the filter's structures in the filter's order. *)
Theorem transform_caps_src (env : Env) (be : Backend) (st : State) (maybe_filter : option Caps) :
  transform_caps env be Src maybe_filter st =
    (Done (Some (match maybe_filter with
                 | Some filter => intersect_first filter SINK_CAPS
                 | None => SINK_CAPS
                 end)), st)
  /\ intersect_first CapsAny SINK_CAPS = SINK_CAPS
  /\ (forall l : list Structure,
        intersect_first (CapsList l) SINK_CAPS =
        CapsList (fold_left (fun dest s1 =>
                    match structure_intersect s1 text_structure with
                    | Some i => merge_structure dest i
                    | None => dest
                    end) l [])).
Proof.
  split; [reflexivity|]. split; [reflexivity|].
  intros l. destruct l; reflexivity.
Qed.

(** [generate_output] on a ready session and a readable UTF-8 unit. *)
Lemma generate_output_ready (env : Env) (be : Backend) (st : State) (h : Synth) (b : InBuffer) :
  ready st h -> queued st = Some b -> readable b = true ->
  utf8_valid (bytes_of_string (payload b)) = true ->
  generate_output env be st =
  (let st1 := add_call (EvTts (tts_kwargs (payload b) (settings st))) (set_queued None st) in
   match tts h (tts_kwargs (payload b) (settings st)) with
   | TtsList audio =>
     if debug_on env && Nat.ltb (List.length audio) 32 then (Panic SliceOutOfRange, st1)
     else if negb (alloc_ok env) then (Done (Err FlowError_Error), st1)
     else (Done (Ok (OutBuffer (as_byte_slice (host_le env) audio))), st1)
   | TtsNotList => (Panic UnwrapFailed, poison_synth st1)
   | TtsErr => (Done (Ok NoOutput), st1)
   end).
Proof.
  intros [Hs [Hp Hsp]] Hq Hr Hu.
  unfold generate_output, take_queued_buffer, bind, ret.
  rewrite Hq, Hr, Hu. cbn [negb]. cbv beta iota zeta.
  rewrite (with_synth_some be _ _ h) by (destruct st; simpl in *; assumption).
  unfold synthesise, with_settings_lock, bind, ret, modify.
  replace (settings_poisoned (set_queued None st)) with false by (destruct st; simpl in *; congruence).
  replace (settings (set_queued None st)) with (settings st) by (destruct st; reflexivity).
  cbv beta iota.
  destruct (tts h _) as [audio| |]; cbn [negb]; try reflexivity.
  destruct (debug_on env && Nat.ltb (List.length audio) 32); [reflexivity|].
  destruct (alloc_ok env); reflexivity.
Qed.

Lemma as_byte_slice_length (le : bool) (audio : list Z) :
  List.length (as_byte_slice le audio) = 4 * List.length audio.
Proof.
  induction audio as [|w audio IH]; [reflexivity|].
  unfold as_byte_slice in *. simpl flat_map. rewrite length_app, IH.
  unfold f32_bytes. destruct le; simpl; lia.
Qed.

Lemma as_byte_slice_le (audio : list Z) : as_byte_slice true audio = f32_le_encoding audio.
Proof.
  induction audio as [|w audio IH]; [reflexivity|].
  unfold as_byte_slice, f32_le_encoding in *. cbn [flat_map]. rewrite IH. reflexivity.
Qed.

Lemma generate_output_unreadable (env : Env) (be : Backend) (st : State) (b : InBuffer) :
  queued st = Some b -> readable b = false ->
  generate_output env be st = (Done (Err FlowError_Error), set_queued None st).
Proof.
  intros Hq Hr. unfold generate_output, take_queued_buffer, bind, ret.
  rewrite Hq, Hr. reflexivity.
Qed.

(** C2 (as the code does it): a successful synthesis of [audio], when the
    debug log of the first 32 samples is in bounds and the buffer can be
    allocated, gives an output buffer holding the samples' memory: each
    [f32] in native byte order, in sequence, with nothing else, so
    [4 * length audio] bytes; on a little-endian host this is the
    little-endian encoding. *)
Theorem generate_output_encoding (env : Env) (be : Backend) (st : State) (h : Synth)
  (b : InBuffer) (audio : list Z) :
  ready st h -> queued st = Some b -> readable b = true ->
  utf8_valid (bytes_of_string (payload b)) = true ->
  tts h (tts_kwargs (payload b) (settings st)) = TtsList audio ->
  (debug_on env = false \/ (32 <= List.length audio)%nat) ->
  alloc_ok env = true ->
  fst (generate_output env be st) = Done (Ok (OutBuffer (as_byte_slice (host_le env) audio)))
  /\ List.length (as_byte_slice (host_le env) audio) = 4 * List.length audio
  /\ (host_le env = true -> as_byte_slice (host_le env) audio = f32_le_encoding audio).
Proof.
  intros Hready Hq Hr Hu Ht Hd Ha.
  rewrite (generate_output_ready env be st h b Hready Hq Hr Hu). cbv zeta.
  rewrite Ht. split; [|split].
  - replace (debug_on env && Nat.ltb (List.length audio) 32) with false.
    + rewrite Ha. reflexivity.
    + destruct Hd as [Hd|Hd]; [rewrite Hd; reflexivity|].
      destruct (debug_on env); [|reflexivity]. simpl. symmetry. apply Nat.ltb_ge. exact Hd.
  - apply as_byte_slice_length.
  - intros Hle. rewrite Hle. apply as_byte_slice_le.
Qed.

Lemma generate_output_encoding_witness :
  fst (generate_output env_quiet_le sample_backend (ready_state (Some hello_buffer)))
  = Done (Ok (OutBuffer [205; 204; 204; 61; 205; 204; 76; 190; 205; 204; 76; 61]%Z)).
Proof.
  refine (eq_trans (proj1 (generate_output_encoding env_quiet_le sample_backend
            (ready_state (Some hello_buffer)) sample_synth hello_buffer sample_f32
            _ _ _ _ _ _ _)) _).
  - split; [|split]; reflexivity.
  - reflexivity.
  - reflexivity.
  - vm_compute. reflexivity.
  - vm_compute. reflexivity.
  - left. reflexivity.
  - reflexivity.
  - vm_compute. reflexivity.
Defined.

(** C2 as stated fails: on a big-endian host the buffer holds the samples
    in big-endian order, not their little-endian encoding. *)
Lemma generate_output_encoding_not_le :
  fst (generate_output env_quiet_be sample_backend (ready_state (Some hello_buffer)))
  <> Done (Ok (OutBuffer (f32_le_encoding sample_f32))).
Proof. vm_compute. intros H. discriminate H. Qed.

(** C10: after a successful synthesis of [audio], [generate_output] panics
    exactly when the [debug!] arguments are evaluated (the category is at
    DEBUG level) and [&audio[..32]] is out of bounds, that is, [audio] has
    fewer than 32 samples; it panics for no other reason. *)
Theorem generate_output_debug_slice (env : Env) (be : Backend) (st : State) (h : Synth)
  (b : InBuffer) (audio : list Z) :
  ready st h -> queued st = Some b -> readable b = true ->
  utf8_valid (bytes_of_string (payload b)) = true ->
  tts h (tts_kwargs (payload b) (settings st)) = TtsList audio ->
  (fst (generate_output env be st) = Panic SliceOutOfRange
     <-> debug_on env = true /\ (List.length audio < 32)%nat)
  /\ (forall p, fst (generate_output env be st) = Panic p -> p = SliceOutOfRange).
Proof.
  intros Hready Hq Hr Hu Ht.
  rewrite (generate_output_ready env be st h b Hready Hq Hr Hu). cbv zeta.
  rewrite Ht.
  destruct (debug_on env) eqn:Hd; simpl;
    [destruct (Nat.ltb (List.length audio) 32) eqn:Hl; simpl|].
  - apply Nat.ltb_lt in Hl. split; [tauto|]. intros p Hp. congruence.
  - apply Nat.ltb_ge in Hl.
    destruct (alloc_ok env); simpl; (split; [split; [discriminate|lia]|intros p Hp; discriminate]).
  - destruct (alloc_ok env); simpl;
      (split; [split; [discriminate|intros [Hf _]; discriminate]|intros p Hp; discriminate]).
Qed.

Lemma generate_output_debug_slice_witness :
  fst (generate_output env_debug_le sample_backend (ready_state (Some hello_buffer)))
  = Panic SliceOutOfRange.
Proof.
  apply (proj1 (generate_output_debug_slice env_debug_le sample_backend
            (ready_state (Some hello_buffer)) sample_synth hello_buffer sample_f32
            (conj eq_refl (conj eq_refl eq_refl)) eq_refl eq_refl
            ltac:(vm_compute; reflexivity) ltac:(vm_compute; reflexivity))).
  split; [reflexivity | simpl; lia].
Defined.

(** C5: when the synthesis of a unit raises, [generate_output] returns
    [NoOutput]; the session stays ready with the same handle, and the next
    unit is processed exactly as it would have been without the failure:
    in particular a unit whose synthesis succeeds yields its buffer. *)
Theorem generate_output_tts_failure (env : Env) (be : Backend) (st : State) (h : Synth)
  (b : InBuffer) :
  ready st h -> queued st = Some b -> readable b = true ->
  utf8_valid (bytes_of_string (payload b)) = true ->
  tts h (tts_kwargs (payload b) (settings st)) = TtsErr ->
  let st' := add_call (EvTts (tts_kwargs (payload b) (settings st))) (set_queued None st) in
  generate_output env be st = (Done (Ok NoOutput), st')
  /\ ready st' h
  /\ (forall b2, fst (generate_output env be (set_queued (Some b2) st'))
                 = fst (generate_output env be (set_queued (Some b2) st)))
  /\ (forall b2 audio,
        readable b2 = true -> utf8_valid (bytes_of_string (payload b2)) = true ->
        tts h (tts_kwargs (payload b2) (settings st)) = TtsList audio ->
        (debug_on env = false \/ (32 <= List.length audio)%nat) -> alloc_ok env = true ->
        fst (generate_output env be (set_queued (Some b2) st'))
        = Done (Ok (OutBuffer (as_byte_slice (host_le env) audio)))).
Proof.
  intros Hready Hq Hr Hu Ht st'.
  assert (Hready' : ready st' h)
    by (destruct Hready as [A [B C]]; destruct st; simpl in *; unfold ready; simpl; auto).
  assert (Hready2 : forall b2, ready (set_queued (Some b2) st') h)
    by (intros b2; destruct Hready' as [A [B C]]; destruct st; simpl in *; unfold ready; simpl; auto).
  assert (Hready3 : forall b2, ready (set_queued (Some b2) st) h)
    by (intros b2; destruct Hready as [A [B C]]; destruct st; simpl in *; unfold ready; simpl; auto).
  assert (Hset : forall b2, settings (set_queued (Some b2) st') = settings st)
    by (intros b2; destruct st; reflexivity).
  assert (Hset' : forall b2, settings (set_queued (Some b2) st) = settings st)
    by (intros b2; destruct st; reflexivity).
  assert (Hq2 : forall b2 s, queued (set_queued (Some b2) s) = Some b2) by reflexivity.
  split; [|split; [exact Hready'|split]].
  - rewrite (generate_output_ready env be st h b Hready Hq Hr Hu). cbv zeta.
    rewrite Ht. reflexivity.
  - intros b2.
    destruct (readable b2) eqn:Hr2.
    + destruct (utf8_valid (bytes_of_string (payload b2))) eqn:Hu2.
      * rewrite (generate_output_ready env be _ h b2 (Hready2 b2) (Hq2 _ _) Hr2 Hu2).
        rewrite (generate_output_ready env be _ h b2 (Hready3 b2) (Hq2 _ _) Hr2 Hu2).
        cbv zeta. rewrite Hset, Hset'.
        destruct (tts h (tts_kwargs (payload b2) (settings st))); [|reflexivity|reflexivity].
        destruct (_ && _); [reflexivity|]. destruct (negb _); reflexivity.
      * rewrite (generate_output_invalid_utf8 env be _ b2 (Hq2 _ _) Hu2).
        rewrite (generate_output_invalid_utf8 env be _ b2 (Hq2 _ _) Hu2). reflexivity.
    + rewrite (generate_output_unreadable env be _ b2 (Hq2 _ _) Hr2).
      rewrite (generate_output_unreadable env be _ b2 (Hq2 _ _) Hr2). reflexivity.
  - intros b2 audio Hr2 Hu2 Ht2 Hd Ha.
    apply (generate_output_encoding env be _ h b2 audio (Hready2 b2) (Hq2 _ _) Hr2 Hu2);
      [rewrite Hset; exact Ht2 | exact Hd | exact Ha].
Qed.

Lemma generate_output_tts_failure_witness :
  generate_output env_quiet_le sample_backend (ready_state (Some bad_buffer))
  = (Done (Ok NoOutput),
     add_call (EvTts (tts_kwargs "bad" (settings new_state)))
       (set_queued None (ready_state (Some bad_buffer))))
  /\ fst (generate_output env_quiet_le sample_backend
            (set_queued (Some hello_buffer)
               (add_call (EvTts (tts_kwargs "bad" (settings new_state)))
                  (set_queued None (ready_state (Some bad_buffer))))))
     = Done (Ok (OutBuffer (as_byte_slice true sample_f32))).
Proof.
  destruct (generate_output_tts_failure env_quiet_le sample_backend
              (ready_state (Some bad_buffer)) sample_synth bad_buffer
              (conj eq_refl (conj eq_refl eq_refl)) eq_refl eq_refl
              ltac:(vm_compute; reflexivity) ltac:(vm_compute; reflexivity))
    as [H1 [_ [_ H4]]].
  split; [exact H1|].
  apply (H4 hello_buffer sample_f32 eq_refl ltac:(vm_compute; reflexivity)
           ltac:(vm_compute; reflexivity) (or_introl eq_refl) eq_refl).
Defined.

(** C9: the [tts] call receives the text under ["text"] and, for each of
    [speaker], [language] and the voice cloning file, the value under
    ["speaker"], ["language"] and ["speaker_wav"] exactly when the setting is
    set (no other key, nothing for an unset one); a ready session calls it
    with exactly these arguments, and the backend is constructed with
    [model_name] the model, [progress_bar] false and [gpu] the setting. *)
Theorem tts_call_arguments :
  (forall (text : string) (g : Settings),
     kw_lookup "text" (tts_kwargs text g) = Some text
     /\ kw_lookup "speaker" (tts_kwargs text g) = speaker g
     /\ kw_lookup "language" (tts_kwargs text g) = language g
     /\ kw_lookup "speaker_wav" (tts_kwargs text g) = voice_cloning_input_file g
     /\ (forall k v, In (k, v) (tts_kwargs text g) ->
           (k = "text"%string /\ v = text)
           \/ (k = "speaker"%string /\ speaker g = Some v)
           \/ (k = "language"%string /\ language g = Some v)
           \/ (k = "speaker_wav"%string /\ voice_cloning_input_file g = Some v)))
  /\ (forall env be st h b,
        ready st h -> queued st = Some b -> readable b = true ->
        utf8_valid (bytes_of_string (payload b)) = true ->
        calls (snd (generate_output env be st))
        = calls st ++ [EvTts (tts_kwargs (payload b) (settings st))])
  /\ (forall be st,
        settings_poisoned st = false ->
        calls (snd (init_synth be st))
        = calls st ++ [EvConstruct {| model_name := model (settings st);
                                      progress_bar := false;
                                      kw_gpu := gpu (settings st) |}]).
Proof.
  split; [|split].
  - intros text g. unfold tts_kwargs.
    destruct (speaker g) as [sp|], (language g) as [l|], (voice_cloning_input_file g) as [f|];
      simpl; (split; [reflexivity|split; [reflexivity|split; [reflexivity|split; [reflexivity|]]]]);
      intros k v Hin; simpl in Hin;
      repeat (destruct Hin as [Hin|Hin]; [injection Hin as <- <-; tauto|]);
      contradiction.
  - intros env be st h b Hready Hq Hr Hu.
    rewrite (generate_output_ready env be st h b Hready Hq Hr Hu). cbv zeta.
    destruct (tts h _) as [audio| |]; simpl; try reflexivity.
    destruct (_ && _); [reflexivity|]. destruct (negb _); reflexivity.
  - intros be st Hp. unfold init_synth, with_settings_lock, bind, ret, modify, unwrap, panic.
    rewrite Hp. cbv beta iota.
    destruct st as [g gp sy sp q cs]; simpl in *. subst gp.
    destruct (construct be _) as [s|]; simpl; [|reflexivity].
    destruct (is_none (language g) && is_multi_lingual s); simpl; [reflexivity|].
    destruct (is_none (speaker g) && is_multi_speaker s); reflexivity.
Qed.

Lemma tts_call_arguments_witness :
  calls (snd (generate_output env_quiet_le sample_backend (ready_state (Some hello_buffer))))
  = [EvTts [("text"%string, "hello"%string)]]
  /\ calls (snd (init_synth sample_backend new_state))
     = [EvConstruct {| model_name := DEFAULT_MODEL; progress_bar := false; kw_gpu := false |}].
Proof.
  destruct tts_call_arguments as [_ [H2 H3]]. split.
  - refine (eq_trans (H2 env_quiet_le sample_backend (ready_state (Some hello_buffer))
             sample_synth hello_buffer (conj eq_refl (conj eq_refl eq_refl)) eq_refl eq_refl
             ltac:(vm_compute; reflexivity)) _).
    vm_compute. reflexivity.
  - refine (eq_trans (H3 sample_backend new_state eq_refl) _). reflexivity.
Defined.

(** *** The caps intersection keeps a fixed field of the second caps *)

Lemma value_intersect_fixed (v : Value) (a : Atom) (w : Value) :
  value_intersect v (VAtom a) = Some w -> w = VAtom a.
Proof.
  destruct v as [b|lo hi|l]; simpl.
  - destruct (atom_eqb b a) eqn:E; [|discriminate].
    apply atom_eqb_eq in E. subst. congruence.
  - destruct a as [z|s']; simpl; [destruct (in_range lo hi z)|]; congruence.
  - unfold intersect_list.
    assert (Hacc : forall acc, (acc = None \/ acc = Some (VAtom a)) ->
              fold_left (fun acc b => if atom_in b (VAtom a) then list_acc acc b else acc) l acc
              = Some w -> w = VAtom a).
    { induction l as [|b l IH]; simpl; intros acc Hacc.
      - destruct Hacc as [-> | ->]; congruence.
      - apply IH. destruct (atom_eqb b a) eqn:E; [|exact Hacc].
        apply atom_eqb_eq in E. subst b. right.
        destruct Hacc as [-> | ->]; simpl; [reflexivity|]. rewrite atom_eqb_refl. reflexivity. }
    apply Hacc. left. reflexivity.
Qed.

Lemma field_lookup_app (k : string) (l1 l2 : list (string * Value)) :
  field_lookup k (l1 ++ l2) =
  match field_lookup k l1 with Some v => Some v | None => field_lookup k l2 end.
Proof.
  induction l1 as [|[k' v'] l1 IH]; simpl; [reflexivity|].
  destruct (String.eqb k k'); [reflexivity|exact IH].
Qed.

Lemma field_lookup_filter (k : string) (P : string * Value -> bool) (l : list (string * Value)) :
  (forall v, P (k, v) = true) -> field_lookup k (filter P l) = field_lookup k l.
Proof.
  intros HP. induction l as [|[k' v'] l IH]; simpl; [reflexivity|].
  destruct (String.eqb k k') eqn:E.
  - apply String.eqb_eq in E. subst k'. rewrite HP. simpl. rewrite String.eqb_refl. reflexivity.
  - destruct (P (k', v')); simpl; [rewrite E|]; exact IH.
Qed.

Lemma intersect_fields_fixed (k : string) (a : Atom) (fs1 fs2 fs : list (string * Value)) :
  intersect_fields fs1 fs2 = Some fs -> field_lookup k fs2 = Some (VAtom a) ->
  field_lookup k fs = Some (VAtom a) \/ (field_lookup k fs = None /\ field_lookup k fs1 = None).
Proof.
  revert fs. induction fs1 as [|[k1 v1] fs1 IH]; simpl; intros fs Hi Hk.
  - injection Hi as <-. right. split; reflexivity.
  - destruct (field_lookup k1 fs2) as [v2|] eqn:E2.
    + destruct (value_intersect v1 v2) as [v|] eqn:Ev; [|discriminate].
      destruct (intersect_fields fs1 fs2) as [fs'|] eqn:Er; [|discriminate].
      simpl in Hi. injection Hi as <-. simpl.
      destruct (String.eqb k k1) eqn:Ekk.
      * apply String.eqb_eq in Ekk. subst k1. rewrite Hk in E2. injection E2 as <-.
        left. f_equal. exact (value_intersect_fixed v1 a v Ev).
      * exact (IH fs' eq_refl Hk).
    + destruct (intersect_fields fs1 fs2) as [fs'|] eqn:Er; [|discriminate].
      simpl in Hi. injection Hi as <-. simpl.
      destruct (String.eqb k k1) eqn:Ekk.
      * apply String.eqb_eq in Ekk. subst k1. congruence.
      * exact (IH fs' eq_refl Hk).
Qed.

Lemma structure_intersect_fixed (k : string) (a : Atom) (s1 s2 i : Structure) :
  structure_intersect s1 s2 = Some i -> field_lookup k (st_fields s2) = Some (VAtom a) ->
  field_lookup k (st_fields i) = Some (VAtom a).
Proof.
  unfold structure_intersect. intros Hi Hk.
  destruct (negb _); [discriminate|].
  destruct (intersect_fields (st_fields s1) (st_fields s2)) as [fs|] eqn:E; [|discriminate].
  injection Hi as <-. simpl. rewrite field_lookup_app.
  destruct (intersect_fields_fixed k a _ _ _ E Hk) as [H|[H1 H2]]; rewrite ?H; [reflexivity|].
  rewrite H1, field_lookup_filter; [exact Hk|].
  intros v. simpl. rewrite H2. reflexivity.
Qed.

Lemma merge_structure_in (dest : list Structure) (i s : Structure) :
  In s (merge_structure dest i) -> In s dest \/ s = i.
Proof.
  unfold merge_structure. destruct (existsb _ _); [tauto|].
  rewrite in_app_iff. simpl. intuition.
Qed.

(** Every structure of [intersect_first c1 (CapsList l2)] keeps a field that
    all structures of [l2] fix. *)
Lemma intersect_first_fixed (k : string) (a : Atom) (c1 : Caps) (l2 : list Structure) :
  l2 <> [] ->
  (forall s, In s l2 -> field_lookup k (st_fields s) = Some (VAtom a)) ->
  match intersect_first c1 (CapsList l2) with
  | CapsAny => False
  | CapsList l => forall s, In s l -> field_lookup k (st_fields s) = Some (VAtom a)
  end.
Proof.
  intros Hne H2. destruct l2 as [|s2 l2']; [congruence|].
  destruct c1 as [|[|s1 l1']]; simpl; [exact H2|intros s []|].
  set (P := fun dest : list Structure =>
              forall s, In s dest -> field_lookup k (st_fields s) = Some (VAtom a)).
  assert (Hinner : forall s1 l dest, (forall s, In s l -> In s (s2 :: l2')) -> P dest ->
            P (fold_left (fun dest s2 => match structure_intersect s1 s2 with
                                         | Some i => merge_structure dest i
                                         | None => dest end) l dest)).
  { intros s1' l. induction l as [|t l IH]; simpl; intros dest Hl Hd; [exact Hd|].
    apply IH; [intros s Hs; apply Hl; right; exact Hs|].
    destruct (structure_intersect s1' t) as [i|] eqn:Ei; [|exact Hd].
    intros s Hs. destruct (merge_structure_in _ _ _ Hs) as [Hs' | ->]; [exact (Hd s Hs')|].
    apply (structure_intersect_fixed k a s1' t); [exact Ei|]. apply H2, Hl. left. reflexivity. }
  assert (Houter : forall l dest, P dest ->
            P (fold_left (fun dest s1 =>
                 fold_left (fun dest s2 => match structure_intersect s1 s2 with
                                           | Some i => merge_structure dest i
                                           | None => dest end) (s2 :: l2') dest) l dest)).
  { induction l as [|t l IH]; simpl; intros dest Hd; [exact Hd|].
    apply IH. apply (Hinner t (s2 :: l2')); [tauto|exact Hd]. }
  apply (Houter (s1 :: l1') []). intros s [].
Qed.

Lemma u64_as_i32_small (r : Z) : (0 <= r <= i32_max)%Z -> u64_as_i32 r = r.
Proof.
  unfold u64_as_i32, i32_max. intros Hr.
  replace (2 ^ 32 - 1)%Z with (Z.ones 32) by reflexivity.
  rewrite Z.land_ones by lia. rewrite Z.mod_small by lia.
  replace (r <? 2 ^ 31)%Z with true by (symmetry; apply Z.ltb_lt; lia). reflexivity.
Qed.

Lemma count_constructs_app (l1 l2 : list Event) :
  count_constructs (l1 ++ l2) = count_constructs l1 + count_constructs l2.
Proof.
  induction l1 as [|e l1 IH]; [reflexivity|]. destruct e; simpl; rewrite IH; reflexivity.
Qed.

(** [init_synth] on a configuration the backend accepts. *)
Lemma init_synth_ok (be : Backend) (st : State) (h : Synth) :
  settings_poisoned st = false ->
  construct be (init_kwargs (settings st)) = Some h ->
  is_none (language (settings st)) && is_multi_lingual h = false ->
  is_none (speaker (settings st)) && is_multi_speaker h = false ->
  init_synth be st = (Done h, add_call (EvConstruct (init_kwargs (settings st))) st).
Proof.
  intros Hp Hc Hl Hs.
  unfold init_synth, with_settings_lock, bind, ret, modify, unwrap, panic.
  destruct st as [g gp sy sp q cs]; simpl in *. subst gp. cbv beta iota.
  unfold init_kwargs in Hc. simpl. rewrite Hc. simpl. rewrite Hl, Hs. reflexivity.
Qed.

(** [with_synth] on an uninitialised session runs [init_synth] first. *)
Lemma with_synth_none {R} (be : Backend) (f : Synth -> M R) (st st1 : State) (h : Synth) :
  synth st = None -> synth_poisoned st = false -> init_synth be st = (Done h, st1) ->
  with_synth be f st =
  match f h (set_synth (Some h) st1) with
  | (Panic p, st') => (Panic p, poison_synth st')
  | r => r
  end.
Proof.
  intros Hs Hp Hi. unfold with_synth, with_synth_lock.
  rewrite Hp, Hs. unfold bind. cbv beta iota. rewrite Hi. reflexivity.
Qed.

Lemma transform_caps_sink_ready (env : Env) (be : Backend) (st : State) (h : Synth)
  (maybe_filter : option Caps) :
  synth st = Some h -> synth_poisoned st = false ->
  (0 <= output_sample_rate h < 2 ^ 64)%Z ->
  transform_caps env be Sink maybe_filter st =
  (Done (Some (match maybe_filter with
               | Some filter =>
                 intersect_first filter
                   (CapsList [audio_structure (host_le env) (u64_as_i32 (output_sample_rate h))])
               | None => CapsList [audio_structure (host_le env) (u64_as_i32 (output_sample_rate h))]
               end)), add_call EvOutputSampleRate st).
Proof.
  intros Hs Hp Hr. unfold transform_caps. simpl pad_direction_eqb. cbv iota.
  unfold bind at 1 2. rewrite (with_synth_some be _ st h Hs Hp).
  unfold bind, modify, extract_u64, ret.
  replace (in_range 0 (2 ^ 64 - 1) (output_sample_rate h)) with true
    by (symmetry; unfold in_range; apply andb_true_iff; split; [apply Z.leb_le|apply Z.leb_le]; lia).
  reflexivity.
Qed.

Lemma audio_caps_rate (le : bool) (r : Z) (maybe_filter : option Caps) :
  caps_rate_is (match maybe_filter with
                | Some filter => intersect_first filter (CapsList [audio_structure le r])
                | None => CapsList [audio_structure le r]
                end) r.
Proof.
  assert (H1 : forall s, In s [audio_structure le r] ->
                 field_lookup "rate" (st_fields s) = Some (VAtom (AInt r)))
    by (intros s [<-|[]]; reflexivity).
  destruct maybe_filter as [filter|]; [|exact H1].
  pose proof (intersect_first_fixed "rate" (AInt r) filter [audio_structure le r]
                ltac:(discriminate) H1) as H.
  unfold caps_rate_is. destruct (intersect_first _ _); exact H.
Qed.

(** Negotiating the audio side on a ready session gives caps whose every
    structure fixes [rate] to the backend's [output_sample_rate] cast with [as i32], which is the rate itself for
    every rate up to [i32::MAX]; on an uninitialised session the same call
    constructs the backend (once) and the session becomes ready. *)
Theorem transform_caps_sink_rate (env : Env) (be : Backend) (st : State) (h : Synth)
  (maybe_filter : option Caps) :
  (0 <= output_sample_rate h < 2 ^ 64)%Z ->
  ((synth st = Some h -> synth_poisoned st = false ->
    exists c, transform_caps env be Sink maybe_filter st
              = (Done (Some c), add_call EvOutputSampleRate st)
            /\ caps_rate_is c (u64_as_i32 (output_sample_rate h)))
   /\ ((output_sample_rate h <= i32_max)%Z ->
       u64_as_i32 (output_sample_rate h) = output_sample_rate h)
   /\ (synth st = None -> synth_poisoned st = false -> settings_poisoned st = false ->
       construct be (init_kwargs (settings st)) = Some h ->
       is_none (language (settings st)) && is_multi_lingual h = false ->
       is_none (speaker (settings st)) && is_multi_speaker h = false ->
       synth (snd (transform_caps env be Sink maybe_filter st)) = Some h
       /\ count_constructs (calls (snd (transform_caps env be Sink maybe_filter st)))
          = S (count_constructs (calls st))
       /\ exists c, fst (transform_caps env be Sink maybe_filter st) = Done (Some c)
                 /\ caps_rate_is c (u64_as_i32 (output_sample_rate h)))).
Proof.
  intros Hr. split; [|split].
  - intros Hs Hp. eexists. split.
    + apply (transform_caps_sink_ready env be st h maybe_filter Hs Hp Hr).
    + apply audio_caps_rate.
  - intros Hle. apply u64_as_i32_small. lia.
  - intros Hs Hp Hsp Hc Hl Hsk.
    pose proof (init_synth_ok be st h Hsp Hc Hl Hsk) as Hi.
    set (st1 := set_synth (Some h) (add_call (EvConstruct (init_kwargs (settings st))) st)).
    assert (E : transform_caps env be Sink maybe_filter st
                = transform_caps env be Sink maybe_filter st1).
    { unfold transform_caps. simpl pad_direction_eqb. cbv iota.
      unfold bind. cbv beta iota. rewrite (with_synth_none be _ st _ h Hs Hp Hi).
      rewrite (with_synth_some be _ st1 h) by (destruct st; simpl in *; auto).
      reflexivity. }
    rewrite E.
    rewrite (transform_caps_sink_ready env be st1 h maybe_filter)
      by (destruct st; simpl in *; auto).
    split; [|split].
    + destruct st; reflexivity.
    + destruct st; simpl. rewrite !count_constructs_app. simpl. lia.
    + eexists. split; [reflexivity|]. apply audio_caps_rate.
Qed.

Lemma transform_caps_sink_rate_witness :
  transform_caps env_quiet_le sample_backend Sink None (ready_state None)
  = (Done (Some (CapsList [audio_structure true 22050])),
     add_call EvOutputSampleRate (ready_state None)).
Proof.
  destruct (transform_caps_sink_rate env_quiet_le sample_backend (ready_state None)
              sample_synth None ltac:(simpl; lia)) as [H1 _].
  destruct (H1 eq_refl eq_refl) as [c [Hc _]]. rewrite Hc.
  vm_compute in Hc. injection Hc as Hc'. subst c. reflexivity.
Defined.

(** C3: the code reports the backend's rate in the caps through
    [sample_rate as i32].  For a backend rate of [2^31] (a valid [u64], one
    above [i32::MAX]) the debug line logs [2^31] as the rate in use, while the
    caps fix [rate] to [-2^31]: not the backend's rate, and outside the
    [1..i32::MAX] range of the element's own [src] pad template. *)
Lemma transform_caps_sink_rate_wraps :
  let h := {| synth_id := 2; is_multi_lingual := false; is_multi_speaker := false;
              output_sample_rate := 2 ^ 31; tts := fun _ => TtsErr |} in
  fst (transform_caps env_quiet_le {| construct := fun _ => Some h |} Sink None
         (set_synth (Some h) new_state))
  = Done (Some (CapsList [audio_structure true (- 2 ^ 31)]))
  /\ structure_is_subset (audio_structure true (- 2 ^ 31)) (src_template_structure true) = false
  /\ ~ exists c, fst (transform_caps env_quiet_le {| construct := fun _ => Some h |} Sink None
                        (set_synth (Some h) new_state)) = Done (Some c)
                 /\ caps_rate_is c (output_sample_rate h).
Proof.
  intros h. split; [vm_compute; reflexivity|]. split; [vm_compute; reflexivity|].
  intros [c [Hc Hr]]. vm_compute in Hc. injection Hc as <-.
  simpl in Hr. specialize (Hr _ (or_introl eq_refl)). vm_compute in Hr. discriminate Hr.
Qed.

(** [init_synth] on a configuration the backend rejects. *)
Lemma init_synth_rejected (be : Backend) (st : State) (h : Synth) :
  settings_poisoned st = false ->
  construct be (init_kwargs (settings st)) = Some h ->
  (is_none (language (settings st)) && is_multi_lingual h = true
   \/ is_none (speaker (settings st)) && is_multi_speaker h = true) ->
  init_synth be st = (Panic (config_panic (settings st) h),
                      poison_settings (add_call (EvConstruct (init_kwargs (settings st))) st)).
Proof.
  intros Hp Hc Hbad.
  unfold init_synth, with_settings_lock, bind, ret, modify, unwrap, panic.
  destruct st as [g gp sy sp q cs]; simpl in *. subst gp. cbv beta iota.
  unfold init_kwargs in Hc. simpl. rewrite Hc. simpl.
  unfold config_panic. simpl.
  destruct (is_none (language g) && is_multi_lingual h) eqn:El; [reflexivity|].
  destruct Hbad as [Hbad|Hbad]; [discriminate|]. rewrite Hbad. reflexivity.
Qed.

Lemma with_synth_init_panic {R} (be : Backend) (f : Synth -> M R) (st st1 : State)
  (p : PanicReason) :
  synth st = None -> synth_poisoned st = false -> init_synth be st = (Panic p, st1) ->
  with_synth be f st = (Panic p, poison_synth st1).
Proof.
  intros Hs Hp Hi. unfold with_synth, with_synth_lock.
  rewrite Hp, Hs. unfold bind. cbv beta iota. rewrite Hi. reflexivity.
Qed.

(** Once the element is flagged as panicked, every call returns its fallback
    and leaves the implementation state alone. *)
Lemma run_calls_panicked (env : Env) (be : Backend) (cs : list Call) (e : Element) :
  panicked e = true ->
  run_calls env be cs e
  = (map fallback_of cs,
     {| imp := imp e; panicked := true; bus := bus e ++ repeat None (List.length cs) |}).
Proof.
  revert e. induction cs as [|c cs IH]; intros e He; simpl.
  - rewrite app_nil_r. destruct e; simpl in *; subst; reflexivity.
  - assert (Hv : vfunc env be c e
                 = (fallback_of c, {| imp := imp e; panicked := true; bus := bus e ++ [None] |}))
      by (destruct c; unfold vfunc, panic_to_error; rewrite He; reflexivity).
    rewrite Hv. rewrite IH by reflexivity. simpl.
    rewrite <- app_assoc. reflexivity.
Qed.

(** C1: when [language] is unset and the backend is multi-lingual, or
    [speaker] is unset and it is multi-speaker, the first call that needs the
    session (a [generate_output] on a readable UTF-8 unit, or an audio-side
    [transform_caps]) panics in [init_synth] with the configuration message;
    the trampoline turns this into a posted error and the call's failure
    value, the session is never stored, and every later call on the element
    returns the same failure value without reaching the backend. *)
Theorem init_synth_config_error_terminal (env : Env) (be : Backend) (st : State) (h : Synth)
  (c : Call) :
  synth st = None -> synth_poisoned st = false -> settings_poisoned st = false ->
  construct be (init_kwargs (settings st)) = Some h ->
  (is_none (language (settings st)) && is_multi_lingual h = true
   \/ is_none (speaker (settings st)) && is_multi_speaker h = true) ->
  ((c = CallGenerate /\ exists b, queued st = Some b /\ readable b = true
                                 /\ utf8_valid (bytes_of_string (payload b)) = true)
   \/ exists d f, c = CallTransformCaps d f /\ d <> Src) ->
  exists e1,
    vfunc env be c (new_element st) = (fallback_of c, e1)
    /\ panicked e1 = true
    /\ bus e1 = [Some (config_panic (settings st) h)]
    /\ synth (imp e1) = None
    /\ forall cs, run_calls env be cs e1
                  = (map fallback_of cs,
                     {| imp := imp e1; panicked := true;
                        bus := bus e1 ++ repeat None (List.length cs) |}).
Proof.
  intros Hs Hp Hsp Hc Hbad Hcall.
  pose proof (init_synth_rejected be st h Hsp Hc Hbad) as Hi.
  set (p := config_panic (settings st) h) in *.
  set (st1 := poison_settings (add_call (EvConstruct (init_kwargs (settings st))) st)) in *.
  assert (Hrest : forall e1, panicked e1 = true -> forall cs, run_calls env be cs e1
                  = (map fallback_of cs, {| imp := imp e1; panicked := true;
                                            bus := bus e1 ++ repeat None (List.length cs) |}))
    by (intros e1 He1 cs; apply run_calls_panicked; exact He1).
  destruct Hcall as [[-> [b [Hq [Hr Hu]]]] | [d [f [-> Hd]]]].
  - set (st0 := set_queued None st).
    assert (Hg : generate_output env be st = (Panic p, poison_synth (poison_settings
                   (add_call (EvConstruct (init_kwargs (settings st0))) st0)))).
    { unfold generate_output, take_queued_buffer. unfold bind at 1. rewrite Hq.
      cbv beta iota. rewrite Hr, Hu. cbn [negb]. cbv beta iota zeta.
      assert (Hi0 : init_synth be st0 = (Panic p, poison_settings
                      (add_call (EvConstruct (init_kwargs (settings st0))) st0))).
      { apply (init_synth_rejected be st0 h); unfold st0;
          [destruct st; simpl in *; auto | exact Hc | exact Hbad]. }
      assert (Hs0 : synth st0 = None) by (unfold st0; destruct st; simpl in *; auto).
      assert (Hp0 : synth_poisoned st0 = false) by (unfold st0; destruct st; simpl in *; auto).
      unfold bind at 1.
      rewrite (with_synth_init_panic be _ st0 _ p Hs0 Hp0 Hi0).
      reflexivity. }
    eexists. split; [|split; [|split; [|split]]].
    + unfold vfunc, panic_to_error, run_op, new_element. cbn [imp panicked bus].
      cbv iota. unfold bind at 1. rewrite Hg. reflexivity.
    + reflexivity.
    + reflexivity.
    + destruct st; simpl in *; auto.
    + apply Hrest. reflexivity.
  - assert (Hd' : pad_direction_eqb d Src = false) by (destruct d; simpl; congruence).
    assert (Ht : transform_caps env be d f st = (Panic p, poison_synth st1)).
    { unfold transform_caps. rewrite Hd'. unfold bind. cbv beta iota.
      rewrite (with_synth_init_panic be _ st st1 p Hs Hp Hi). reflexivity. }
    eexists. split; [|split; [|split; [|split]]].
    + unfold vfunc, panic_to_error, run_op, new_element. cbn [imp panicked bus].
      cbv iota. unfold bind at 1. rewrite Ht. reflexivity.
    + reflexivity.
    + reflexivity.
    + unfold st1. destruct st; simpl in *; auto.
    + apply Hrest. reflexivity.
Qed.

Lemma init_synth_config_error_terminal_witness :
  exists e1,
    vfunc env_quiet_le multilingual_backend CallGenerate
      (new_element (set_queued (Some hello_buffer) new_state))
    = (RGen (Err FlowError_Error), e1)
    /\ panicked e1 = true
    /\ bus e1 = [Some MultiLingualPanic]
    /\ synth (imp e1) = None
    /\ forall cs, run_calls env_quiet_le multilingual_backend cs e1
                  = (map fallback_of cs,
                     {| imp := imp e1; panicked := true;
                        bus := bus e1 ++ repeat None (List.length cs) |}).
Proof.
  apply (init_synth_config_error_terminal env_quiet_le multilingual_backend
           (set_queued (Some hello_buffer) new_state) multilingual_synth CallGenerate
           eq_refl eq_refl eq_refl eq_refl (or_introl eq_refl)).
  left. split; [reflexivity|]. exists hello_buffer.
  split; [reflexivity|]. split; [reflexivity|]. vm_compute. reflexivity.
Defined.

(** *** The session is constructed at most once *)

(** A computation that leaves the session alone: the stored handle, the
    poisoning of its mutex and the number of constructions. *)
Definition Frame {A} (m : M A) : Prop :=
  forall st, synth (snd (m st)) = synth st
             /\ synth_poisoned (snd (m st)) = synth_poisoned st
             /\ count_constructs (calls (snd (m st))) = count_constructs (calls st).

(** The invariant: either nothing happened to the session yet, or it is
    stored or its mutex is poisoned and there was at most one construction. *)
Definition SessionInv (st : State) : Prop :=
  (synth st = None /\ synth_poisoned st = false /\ count_constructs (calls st) = 0)
  \/ ((synth st <> None \/ synth_poisoned st = true) /\ count_constructs (calls st) <= 1).

(** What a step may do: keep the invariant, keep a stored handle, keep a
    poisoned mutex poisoned. *)
Definition Mono (st st' : State) : Prop :=
  (SessionInv st -> SessionInv st')
  /\ (forall h, synth st = Some h -> synth st' = Some h)
  /\ (synth_poisoned st = true -> synth_poisoned st' = true).

Definition Good {A} (m : M A) : Prop := forall st, Mono st (snd (m st)).

Lemma mono_refl (st : State) : Mono st st.
Proof. unfold Mono. auto. Qed.

Lemma mono_trans (st1 st2 st3 : State) : Mono st1 st2 -> Mono st2 st3 -> Mono st1 st3.
Proof. unfold Mono. intros [A1 [B1 C1]] [A2 [B2 C2]]. auto. Qed.

Lemma good_bind {A B} (m : M A) (k : A -> M B) :
  Good m -> (forall a, Good (k a)) -> Good (bind m k).
Proof.
  intros Hm Hk st. unfold bind. specialize (Hm st).
  destruct (m st) as [[a|p] st'] eqn:E; simpl in *; [|exact Hm].
  exact (mono_trans _ _ _ Hm (Hk a st')).
Qed.

Lemma frame_good {A} (m : M A) : Frame m -> Good m.
Proof.
  intros Hf st. destruct (Hf st) as [Hs [Hp Hc]]. unfold Mono, SessionInv.
  rewrite Hs, Hp, Hc. split; [tauto|]. split; [tauto|]. tauto.
Qed.

Lemma frame_bind {A B} (m : M A) (k : A -> M B) :
  Frame m -> (forall a, Frame (k a)) -> Frame (bind m k).
Proof.
  intros Hm Hk st. unfold bind. specialize (Hm st).
  destruct (m st) as [[a|p] st'] eqn:E; simpl in *; [|exact Hm].
  destruct Hm as [A1 [B1 C1]]. destruct (Hk a st') as [A2 [B2 C2]].
  rewrite A2, B2, C2. auto.
Qed.

Lemma frame_ret {A} (a : A) : Frame (ret a).
Proof. intros st. auto. Qed.

Lemma frame_panic {A} (p : PanicReason) : Frame (@panic A p).
Proof. intros st. auto. Qed.

Lemma frame_unwrap {A} (o : option A) : Frame (unwrap o).
Proof. destruct o; [apply frame_ret|apply frame_panic]. Qed.

Lemma frame_set_queued (q : option InBuffer) : Frame (modify (set_queued q)).
Proof. intros st. destruct st; simpl. auto. Qed.

Lemma frame_set_settings (g : Settings) : Frame (modify (set_settings g)).
Proof. intros st. destruct st; simpl. auto. Qed.

Lemma frame_add_call (e : Event) :
  (forall kw, e <> EvConstruct kw) -> Frame (modify (add_call e)).
Proof.
  intros He st. destruct st; simpl. split; [reflexivity|split; [reflexivity|]].
  rewrite count_constructs_app. destruct e; [exfalso; eapply He; reflexivity| |]; simpl; lia.
Qed.

Lemma frame_with_settings_lock {A} (k : Settings -> M A) :
  (forall g, Frame (k g)) -> Frame (with_settings_lock k).
Proof.
  intros Hk st. unfold with_settings_lock.
  destruct (settings_poisoned st); [auto|].
  specialize (Hk (settings st) st).
  destruct (k (settings st) st) as [[a|p] st'] eqn:E; simpl in *; [exact Hk|].
  destruct st'; exact Hk.
Qed.

Lemma frame_take_queued_buffer : Frame take_queued_buffer.
Proof. intros st. destruct st; simpl. auto. Qed.

Lemma frame_synthesise (text : string) (s : Synth) : Frame (synthesise text s).
Proof.
  unfold synthesise. apply frame_bind.
  - apply frame_with_settings_lock. intros g. apply frame_ret.
  - intros kw. apply frame_bind; [apply frame_add_call; discriminate|].
    intros _. destruct (tts s kw); [apply frame_ret|apply frame_panic|apply frame_ret].
Qed.

Lemma frame_extract_u64 (x : Z) : Frame (extract_u64 x).
Proof. unfold extract_u64. destruct (in_range _ _ _); [apply frame_ret|apply frame_panic]. Qed.

(** [init_synth] stores nothing and constructs once. *)
Lemma init_synth_frame (be : Backend) (st : State) :
  synth (snd (init_synth be st)) = synth st
  /\ synth_poisoned (snd (init_synth be st)) = synth_poisoned st
  /\ count_constructs (calls (snd (init_synth be st))) <= S (count_constructs (calls st)).
Proof.
  unfold init_synth, with_settings_lock, bind, ret, modify, unwrap, panic.
  destruct st as [g gp sy sp q cs]; simpl.
  destruct gp; simpl; [split; [reflexivity|split; [reflexivity|lia]]|].
  destruct (construct be _) as [s|]; simpl;
    [destruct (is_none (language g) && is_multi_lingual s);
     destruct (is_none (speaker g) && is_multi_speaker s); simpl|];
    (split; [reflexivity|split; [reflexivity|]]); rewrite count_constructs_app; simpl; lia.
Qed.

Lemma good_with_synth {R} (be : Backend) (f : Synth -> M R) :
  (forall s, Frame (f s)) -> Good (with_synth be f).
Proof.
  intros Hf st. unfold with_synth, with_synth_lock.
  destruct (synth_poisoned st) eqn:Hp; [apply mono_refl|].
  destruct (synth st) as [h|] eqn:Hs.
  - unfold bind at 1, ret. cbv beta iota.
    pose proof (Hf h st) as F. destruct (f h st) as [[a|p] st'] eqn:E; simpl in *;
      destruct F as [A [B C]]; unfold Mono, SessionInv; destruct st'; simpl in *;
      rewrite ?A, ?B, ?C, ?Hs, ?Hp; (split; [|split]); intros; try congruence;
      destruct H as [[H1 _]|[_ H2]]; try discriminate; right; split; auto; left; discriminate.
  - unfold bind at 1 2. pose proof (init_synth_frame be st) as [A1 [B1 C1]].
    destruct (init_synth be st) as [[s|p] st1] eqn:Ei; simpl in *.
    + unfold modify, ret. cbv beta iota.
      pose proof (Hf s (set_synth (Some s) st1)) as F.
      destruct (f s (set_synth (Some s) st1)) as [[a|p] st2] eqn:E; simpl in *;
        destruct F as [A [B C]]; destruct st1; simpl in *;
        unfold Mono, SessionInv; destruct st2; simpl in *; subst;
        (split; [|split]); intros; try congruence;
        destruct H as [[_ [_ H3]]|[[H4|H4] _]]; try congruence;
        right; (split; [left; discriminate|lia]).
    + destruct st1; simpl in *. unfold Mono, SessionInv, poison_synth; simpl; subst.
      (split; [|split]); intros; try congruence.
      destruct H as [[_ [_ H3]]|[[H4|H4] _]]; try congruence.
      right. split; [right; reflexivity|lia].
Qed.

Lemma good_generate_output (env : Env) (be : Backend) : Good (generate_output env be).
Proof.
  unfold generate_output. apply good_bind; [apply frame_good, frame_take_queued_buffer|].
  intros [buffer|]; [|apply frame_good, frame_ret].
  destruct (negb (readable buffer)); [apply frame_good, frame_ret|]. cbv zeta.
  destruct (negb (utf8_valid _)); [apply frame_good, frame_ret|].
  apply good_bind; [apply good_with_synth; intros s; apply frame_synthesise|].
  intros [audio|]; [|apply frame_good, frame_ret].
  apply good_bind.
  - apply frame_good. destruct (_ && _); [apply frame_panic|apply frame_ret].
  - intros _. destruct (negb (alloc_ok env)); apply frame_good, frame_ret.
Qed.

Lemma good_transform_caps (env : Env) (be : Backend) (d : PadDirection) (f : option Caps) :
  Good (transform_caps env be d f).
Proof.
  unfold transform_caps. apply good_bind; [|intros caps; apply frame_good, frame_ret].
  destruct (pad_direction_eqb d Src); [apply frame_good, frame_ret|].
  apply good_bind; [|intros r; apply frame_good, frame_ret].
  apply good_with_synth. intros s. apply frame_bind.
  - apply frame_add_call. discriminate.
  - intros _. apply frame_extract_u64.
Qed.

Lemma frame_set_property (p : Property) : Frame (set_property p).
Proof.
  unfold set_property. apply frame_with_settings_lock. intros g.
  destruct p; try apply frame_set_settings.
  apply frame_bind; [apply frame_unwrap|intros m; apply frame_set_settings].
Qed.

Lemma good_run_op (env : Env) (be : Backend) (op : Op) : Good (run_op env be op).
Proof.
  destruct op; simpl.
  - apply frame_good, frame_bind; [apply frame_set_queued|intros _; apply frame_ret].
  - apply good_bind; [apply good_generate_output|intros r; apply frame_good, frame_ret].
  - apply good_bind; [apply good_transform_caps|intros r; apply frame_good, frame_ret].
  - apply frame_good, frame_bind; [apply frame_set_property|intros _; apply frame_ret].
Qed.

Lemma mono_run_ops (env : Env) (be : Backend) (ops : list Op) (st : State) :
  Mono st (run_ops env be ops st).
Proof.
  revert st. induction ops as [|op ops IH]; intros st; simpl; [apply mono_refl|].
  exact (mono_trans _ _ _ (good_run_op env be op st) (IH _)).
Qed.

(** C8: from a new element, any sequence of calls constructs the backend at
    most once; once a handle is stored, every later sequence of calls keeps
    exactly that handle; and [with_synth] on a stored handle runs its closure
    on that handle without calling [init_synth]. *)
Theorem backend_constructed_once :
  (forall env be ops, count_constructs (calls (run_ops env be ops new_state)) <= 1)
  /\ (forall env be ops st h, synth st = Some h -> synth (run_ops env be ops st) = Some h)
  /\ (forall R be (f : Synth -> M R) st h,
        synth st = Some h -> synth_poisoned st = false ->
        with_synth be f st = match f h st with
                             | (Panic p, st') => (Panic p, poison_synth st')
                             | r => r
                             end).
Proof.
  split; [|split].
  - intros env be ops. destruct (mono_run_ops env be ops new_state) as [HI _].
    destruct (HI (or_introl (conj eq_refl (conj eq_refl eq_refl)))) as [[_ [_ H]]|[_ H]]; lia.
  - intros env be ops st h Hs. exact (proj1 (proj2 (mono_run_ops env be ops st)) h Hs).
  - intros R be f st h. apply with_synth_some.
Qed.

Lemma backend_constructed_once_witness :
  let ops := [OpTransformCaps Sink None; OpSubmit hello_buffer; OpGenerate;
              OpSubmit bad_buffer; OpGenerate; OpTransformCaps Sink None] in
  let st := run_ops env_quiet_le sample_backend [OpTransformCaps Sink None] new_state in
  synth st = Some sample_synth
  /\ synth (run_ops env_quiet_le sample_backend ops st) = Some sample_synth
  /\ count_constructs (calls (run_ops env_quiet_le sample_backend ops st)) = 1.
Proof.
  intros ops st.
  destruct backend_constructed_once as [H1 [H2 _]].
  assert (Hs : synth st = Some sample_synth) by (vm_compute; reflexivity).
  split; [exact Hs|]. split; [exact (H2 env_quiet_le sample_backend ops st sample_synth Hs)|].
  vm_compute. reflexivity.
Defined.

(** ** Further properties of the element *)

(** Setting a property and reading it back gives the value set (a NULL
    [model] excepted); the other properties read as before, and neither the
    session nor the backend is touched. *)
Theorem set_property_roundtrip (p : Property) (st : State) :
  settings_poisoned st = false -> p <> PModel None ->
  fst (set_property p st) = Done tt
  /\ fst (property (property_name p) (snd (set_property p st))) = Done (property_value p)
  /\ (forall n, n <> property_name p ->
        fst (property n (snd (set_property p st))) = fst (property n st))
  /\ synth (snd (set_property p st)) = synth st
  /\ synth_poisoned (snd (set_property p st)) = synth_poisoned st
  /\ calls (snd (set_property p st)) = calls st.
Proof.
  intros Hp Hm. destruct st as [g gp sy sp q cs]; simpl in Hp; subst gp.
  destruct p as [[m|]|v|v|v|v]; [|congruence| | | |];
    unfold set_property, property, with_settings_lock, bind, ret, modify, unwrap; simpl;
    (split; [reflexivity|split; [reflexivity|split; [|auto]]]);
    intros n Hn; destruct n; simpl in *; congruence.
Qed.

Lemma set_property_roundtrip_witness :
  fst (property NSpeaker (snd (set_property (PSpeaker (Some "p225"%string)) new_state)))
  = Done (PVString (Some "p225"%string)).
Proof.
  exact (proj1 (proj2 (set_property_roundtrip (PSpeaker (Some "p225"%string)) new_state
                         eq_refl ltac:(discriminate)))).
Defined.

(** A unit whose memory cannot be mapped readable is consumed and fails the
    call with [FlowError::Error] as a plain return, not a panic: the element
    is not flagged, nothing is posted, and the session and its mutexes are
    untouched. *)
Theorem generate_unmappable_buffer (env : Env) (be : Backend) (e : Element) (b : InBuffer) :
  panicked e = false -> queued (imp e) = Some b -> readable b = false ->
  vfunc env be CallGenerate e
  = (RGen (Err FlowError_Error),
     {| imp := set_queued None (imp e); panicked := false; bus := bus e |}).
Proof.
  intros Hpk Hq Hr. unfold vfunc, panic_to_error, run_op. rewrite Hpk.
  unfold bind at 1. rewrite (generate_output_unreadable env be (imp e) b Hq Hr).
  reflexivity.
Qed.

Lemma generate_unmappable_buffer_witness :
  vfunc env_quiet_le sample_backend CallGenerate
    (new_element (set_queued (Some {| payload := "hello"; readable := false |}) new_state))
  = (RGen (Err FlowError_Error),
     {| imp := set_queued None (set_queued (Some {| payload := "hello"; readable := false |}) new_state);
        panicked := false; bus := [] |}).
Proof.
  apply (generate_unmappable_buffer env_quiet_le sample_backend
           (new_element (set_queued (Some {| payload := "hello"; readable := false |}) new_state))
           {| payload := "hello"; readable := false |}); reflexivity.
Defined.

(** When the output buffer cannot be allocated after a successful synthesis,
    the call fails with [FlowError::Error]; the synthesis has already been
    made and the session stays usable. *)
Theorem generate_output_alloc_failure (env : Env) (be : Backend) (st : State) (h : Synth)
  (b : InBuffer) (audio : list Z) :
  ready st h -> queued st = Some b -> readable b = true ->
  utf8_valid (bytes_of_string (payload b)) = true ->
  tts h (tts_kwargs (payload b) (settings st)) = TtsList audio ->
  (debug_on env = false \/ (32 <= List.length audio)%nat) ->
  alloc_ok env = false ->
  generate_output env be st
  = (Done (Err FlowError_Error),
     add_call (EvTts (tts_kwargs (payload b) (settings st))) (set_queued None st))
  /\ ready (add_call (EvTts (tts_kwargs (payload b) (settings st))) (set_queued None st)) h.
Proof.
  intros Hready Hq Hr Hu Ht Hd Ha. split.
  - rewrite (generate_output_ready env be st h b Hready Hq Hr Hu). cbv zeta.
    rewrite Ht. replace (debug_on env && Nat.ltb (List.length audio) 32) with false.
    + rewrite Ha. reflexivity.
    + destruct Hd as [Hd|Hd]; [rewrite Hd; reflexivity|].
      destruct (debug_on env); [|reflexivity]. simpl. symmetry. apply Nat.ltb_ge. exact Hd.
  - destruct Hready as [A [B C]]. destruct st; simpl in *. unfold ready; simpl. auto.
Qed.

Lemma generate_output_alloc_failure_witness :
  fst (generate_output {| debug_on := false; host_le := true; alloc_ok := false |}
         sample_backend (ready_state (Some hello_buffer)))
  = Done (Err FlowError_Error).
Proof.
  refine (f_equal fst (proj1 (generate_output_alloc_failure
            {| debug_on := false; host_le := true; alloc_ok := false |} sample_backend
            (ready_state (Some hello_buffer)) sample_synth hello_buffer sample_f32
            _ _ _ _ _ _ _))).
  - split; [|split]; reflexivity.
  - reflexivity.
  - reflexivity.
  - vm_compute. reflexivity.
  - reflexivity.
  - left. reflexivity.
  - reflexivity.
Defined.

(** A backend whose [tts] result is not a list makes [extract().unwrap()]
    panic while the synth guard is held: the session mutex is poisoned (the
    handle stays stored), and from then on every call that reaches the
    session panics on the lock without calling the backend. *)
Theorem generate_output_tts_not_list (env : Env) (be : Backend) (st : State) (h : Synth)
  (b : InBuffer) :
  ready st h -> queued st = Some b -> readable b = true ->
  utf8_valid (bytes_of_string (payload b)) = true ->
  tts h (tts_kwargs (payload b) (settings st)) = TtsNotList ->
  let st1 := poison_synth (add_call (EvTts (tts_kwargs (payload b) (settings st)))
                                    (set_queued None st)) in
  generate_output env be st = (Panic UnwrapFailed, st1)
  /\ synth st1 = Some h
  /\ (forall b', readable b' = true -> utf8_valid (bytes_of_string (payload b')) = true ->
        generate_output env be (set_queued (Some b') st1)
        = (Panic PoisonedLock, set_queued None st1))
  /\ (forall d f, d <> Src -> transform_caps env be d f st1 = (Panic PoisonedLock, st1)).
Proof.
  intros Hready Hq Hr Hu Ht st1.
  split; [|split; [|split]].
  - rewrite (generate_output_ready env be st h b Hready Hq Hr Hu). cbv zeta.
    rewrite Ht. reflexivity.
  - destruct Hready as [A _]. subst st1. destruct st; simpl in *. exact A.
  - intros b' Hr' Hu'. unfold generate_output, take_queued_buffer, bind, ret.
    change (queued (set_queued (Some b') st1)) with (Some b'). cbv beta iota.
    rewrite Hr', Hu'. reflexivity.
  - intros d f Hd. unfold transform_caps, bind.
    destruct d; [| congruence |]; reflexivity.
Qed.

Lemma generate_output_tts_not_list_witness :
  fst (generate_output env_quiet_le {| construct := fun _ => Some
         {| synth_id := 7; is_multi_lingual := false; is_multi_speaker := false;
            output_sample_rate := 22050%Z; tts := fun _ => TtsNotList |} |}
         (set_synth (Some {| synth_id := 7; is_multi_lingual := false; is_multi_speaker := false;
                             output_sample_rate := 22050%Z; tts := fun _ => TtsNotList |})
                    (set_queued (Some hello_buffer) new_state)))
  = Panic UnwrapFailed.
Proof.
  refine (f_equal fst (proj1 (generate_output_tts_not_list env_quiet_le _ _
            {| synth_id := 7; is_multi_lingual := false; is_multi_speaker := false;
               output_sample_rate := 22050%Z; tts := fun _ => TtsNotList |} hello_buffer
            _ _ _ _ _))).
  - split; [|split]; reflexivity.
  - reflexivity.
  - reflexivity.
  - vm_compute. reflexivity.
  - reflexivity.
Defined.

(** A computation that leaves the queued unit and the settings alone. *)
Definition Quiet {A} (m : M A) : Prop :=
  forall st, queued (snd (m st)) = queued st /\ settings (snd (m st)) = settings st.

Lemma quiet_bind {A B} (m : M A) (k : A -> M B) :
  Quiet m -> (forall a, Quiet (k a)) -> Quiet (bind m k).
Proof.
  intros Hm Hk st. unfold bind. specialize (Hm st).
  destruct (m st) as [[a|p] st'] eqn:E; simpl in *; [|exact Hm].
  destruct Hm as [A1 B1]. destruct (Hk a st') as [A2 B2]. rewrite A2, B2. auto.
Qed.

Lemma quiet_ret {A} (a : A) : Quiet (ret a).
Proof. intros st. auto. Qed.

Lemma quiet_panic {A} (p : PanicReason) : Quiet (@panic A p).
Proof. intros st. auto. Qed.

Lemma quiet_unwrap {A} (o : option A) : Quiet (unwrap o).
Proof. destruct o; [apply quiet_ret|apply quiet_panic]. Qed.

Lemma quiet_add_call (e : Event) : Quiet (modify (add_call e)).
Proof. intros st. destruct st; simpl. auto. Qed.

Lemma quiet_set_synth (o : option Synth) : Quiet (modify (set_synth o)).
Proof. intros st. destruct st; simpl. auto. Qed.

Lemma quiet_with_settings_lock {A} (k : Settings -> M A) :
  (forall g, Quiet (k g)) -> Quiet (with_settings_lock k).
Proof.
  intros Hk st. unfold with_settings_lock.
  destruct (settings_poisoned st); [auto|].
  specialize (Hk (settings st) st).
  destruct (k (settings st) st) as [[a|p] st'] eqn:E; simpl in *; [exact Hk|].
  destruct st'; exact Hk.
Qed.

Lemma quiet_with_synth_lock {A} (k : option Synth -> M A) :
  (forall o, Quiet (k o)) -> Quiet (with_synth_lock k).
Proof.
  intros Hk st. unfold with_synth_lock.
  destruct (synth_poisoned st); [auto|].
  specialize (Hk (synth st) st).
  destruct (k (synth st) st) as [[a|p] st'] eqn:E; simpl in *; [exact Hk|].
  destruct st'; exact Hk.
Qed.

Lemma quiet_init_synth (be : Backend) : Quiet (init_synth be).
Proof.
  unfold init_synth.
  apply quiet_bind; [apply quiet_with_settings_lock; intros; apply quiet_ret|intros kw].
  apply quiet_bind; [apply quiet_add_call|intros _].
  apply quiet_bind; [apply quiet_unwrap|intros s].
  apply quiet_bind; [|intros _; apply quiet_ret].
  apply quiet_with_settings_lock. intros g.
  apply quiet_bind; [destruct (_ && _); [apply quiet_panic|apply quiet_ret]|intros _].
  destruct (_ && _); [apply quiet_panic|apply quiet_ret].
Qed.

Lemma quiet_with_synth {R} (be : Backend) (f : Synth -> M R) :
  (forall s, Quiet (f s)) -> Quiet (with_synth be f).
Proof.
  intros Hf. unfold with_synth. apply quiet_with_synth_lock. intros o.
  apply quiet_bind; [|exact Hf].
  destruct o as [s|]; [apply quiet_ret|].
  apply quiet_bind; [apply quiet_init_synth|intros s].
  apply quiet_bind; [apply quiet_set_synth|intros _; apply quiet_ret].
Qed.

Lemma quiet_synthesise (text : string) (s : Synth) : Quiet (synthesise text s).
Proof.
  unfold synthesise.
  apply quiet_bind; [apply quiet_with_settings_lock; intros; apply quiet_ret|intros kw].
  apply quiet_bind; [apply quiet_add_call|intros _].
  destruct (tts s kw); [apply quiet_ret|apply quiet_panic|apply quiet_ret].
Qed.

Lemma quiet_extract_u64 (x : Z) : Quiet (extract_u64 x).
Proof. unfold extract_u64. destruct (in_range _ _ _); [apply quiet_ret|apply quiet_panic]. Qed.

Lemma quiet_after_take {B} (k : option InBuffer -> M B) (st : State) :
  (forall mb, Quiet (k mb)) ->
  queued (snd (bind take_queued_buffer k st)) = None
  /\ settings (snd (bind take_queued_buffer k st)) = settings st.
Proof.
  intros Hk. unfold bind, take_queued_buffer.
  destruct (Hk (queued st) (set_queued None st)) as [H1 H2].
  rewrite H1, H2. destruct st; split; reflexivity.
Qed.

(** [generate_output] always consumes the queued unit, whatever the outcome
    (a panic included), and never changes the settings; [transform_caps]
    leaves both alone, so negotiating never drops a pending unit. *)
Theorem queued_unit_consumed (env : Env) (be : Backend) (st : State) :
  queued (snd (generate_output env be st)) = None
  /\ settings (snd (generate_output env be st)) = settings st
  /\ (forall d f, queued (snd (transform_caps env be d f st)) = queued st
                  /\ settings (snd (transform_caps env be d f st)) = settings st).
Proof.
  assert (Hcont : forall mb : option InBuffer,
    Quiet (match mb with
           | None => ret (Ok NoOutput)
           | Some buffer =>
             if negb (readable buffer) then ret (Err FlowError_Error) else
             let text := payload buffer in
             if negb (utf8_valid (bytes_of_string text)) then ret (Err FlowError_Error) else
             maybe_audio <- with_synth be (synthesise text) ;;
             match maybe_audio with
             | Some audio =>
               (if debug_on env && Nat.ltb (List.length audio) 32
                then panic SliceOutOfRange else ret tt) ;;;
               let audio_bytes := as_byte_slice (host_le env) audio in
               if negb (alloc_ok env) then ret (Err FlowError_Error)
               else ret (Ok (OutBuffer audio_bytes))
             | None => ret (Ok NoOutput)
             end
           end)).
  { intros [buffer|]; [|apply quiet_ret].
    destruct (negb (readable buffer)); [apply quiet_ret|]. cbv zeta.
    destruct (negb (utf8_valid _)); [apply quiet_ret|].
    apply quiet_bind; [apply quiet_with_synth; intros s; apply quiet_synthesise|].
    intros [audio|]; [|apply quiet_ret].
    apply quiet_bind; [destruct (_ && _); [apply quiet_panic|apply quiet_ret]|intros _].
    destruct (negb (alloc_ok env)); apply quiet_ret. }
  destruct (quiet_after_take _ st Hcont) as [H1 H2].
  split; [exact H1|split; [exact H2|]].
  - intros d f. clear H1 H2. revert st. unfold transform_caps.
    apply quiet_bind; [|intros c; apply quiet_ret].
    destruct (pad_direction_eqb d Src); [apply quiet_ret|].
    apply quiet_bind; [|intros r; apply quiet_ret].
    apply quiet_with_synth. intros s.
    apply quiet_bind; [apply quiet_add_call|intros _; apply quiet_extract_u64].
Qed.

(** Bytes below [0x80] are accepted by [str::from_utf8]. *)
Lemma utf8_valid_ascii (l : list Z) :
  forallb (fun b => (b <? 0x80)%Z) l = true -> utf8_valid l = true.
Proof.
  induction l as [|b l IH]; simpl; [reflexivity|].
  intros H. apply andb_true_iff in H as [Hb Hl]. rewrite Hb. exact (IH Hl).
Qed.

(** A readable unit of ASCII text always gets past the UTF-8 check: on a
    ready session it reaches the backend, with exactly one [tts] call. *)
Theorem generate_output_ascii_reaches_tts (env : Env) (be : Backend) (st : State) (h : Synth)
  (b : InBuffer) :
  ready st h -> queued st = Some b -> readable b = true ->
  forallb (fun c => (byte_of_ascii c <? 0x80)%Z) (list_ascii_of_string (payload b)) = true ->
  utf8_valid (bytes_of_string (payload b)) = true
  /\ calls (snd (generate_output env be st))
     = calls st ++ [EvTts (tts_kwargs (payload b) (settings st))].
Proof.
  intros Hready Hq Hr Ha.
  assert (Hu : utf8_valid (bytes_of_string (payload b)) = true).
  { apply utf8_valid_ascii. unfold bytes_of_string. revert Ha.
    induction (list_ascii_of_string (payload b)) as [|c cs IH]; simpl; [reflexivity|].
    intros Ha. apply andb_true_iff in Ha as [H1 H2]. rewrite H1. exact (IH H2). }
  split; [exact Hu|].
  rewrite (generate_output_ready env be st h b Hready Hq Hr Hu). cbv zeta.
  destruct (tts h _) as [audio| |]; simpl;
    [destruct (_ && _); [|destruct (negb _)]|..]; destruct st; reflexivity.
Qed.

Lemma generate_output_ascii_reaches_tts_witness :
  calls (snd (generate_output env_quiet_le sample_backend (ready_state (Some bad_buffer))))
  = [EvTts [("text"%string, "bad"%string)]].
Proof.
  exact (proj2 (generate_output_ascii_reaches_tts env_quiet_le sample_backend
                  (ready_state (Some bad_buffer)) sample_synth bad_buffer
                  (conj eq_refl (conj eq_refl eq_refl)) eq_refl eq_refl
                  ltac:(vm_compute; reflexivity))).
Defined.

(** Reading the [f32] bit patterns back from the bytes written by
    [as_byte_slice], in the same byte order, gives the samples back. *)
Lemma f32_bytes_roundtrip (w : Z) :
  (0 <= w < 2 ^ 32)%Z ->
  (Z.land (Z.shiftr w 0) 255 + Z.land (Z.shiftr w 8) 255 * 256
   + Z.land (Z.shiftr w 16) 255 * 65536 + Z.land (Z.shiftr w 24) 255 * 16777216 = w)%Z.
Proof.
  intros Hw. change 255%Z with (Z.ones 8).
  rewrite !Z.land_ones by lia.
  rewrite !Z.shiftr_div_pow2 by lia.
  change (2 ^ 0)%Z with 1%Z in *. change (2 ^ 8)%Z with 256%Z in *.
  change (2 ^ 16)%Z with 65536%Z in *. change (2 ^ 24)%Z with 16777216%Z in *.
  change (2 ^ 32)%Z with 4294967296%Z in *. rewrite Z.div_1_r.
  replace (w / 65536)%Z with (w / 256 / 256)%Z by (rewrite Z.div_div by lia; reflexivity).
  replace (w / 16777216)%Z with (w / 256 / 256 / 256)%Z by (rewrite !Z.div_div by lia; reflexivity).
  assert (H3 : (0 <= w / 256 / 256 / 256 < 256)%Z).
  { rewrite !Z.div_div by lia. split; [apply Z.div_pos; lia|].
    apply Z.div_lt_upper_bound; lia. }
  rewrite (Z.mod_small (w / 256 / 256 / 256)) by exact H3.
  pose proof (Z.div_mod w 256 ltac:(lia)) as E0.
  pose proof (Z.div_mod (w / 256) 256 ltac:(lia)) as E1.
  pose proof (Z.div_mod (w / 256 / 256) 256 ltac:(lia)) as E2.
  remember (w / 256 / 256 / 256)%Z as q3. remember (w / 256 / 256 mod 256)%Z as r2.
  remember (w / 256 mod 256)%Z as r1. remember (w mod 256)%Z as r0.
  remember (w / 256 / 256)%Z as q2. remember (w / 256)%Z as q1.
  rewrite E0, E1, E2. ring.
Qed.

Theorem as_byte_slice_roundtrip (le : bool) (audio : list Z) :
  Forall (fun w => (0 <= w < 2 ^ 32)%Z) audio ->
  from_byte_slice le (as_byte_slice le audio) = audio.
Proof.
  induction audio as [|w audio IH]; intros Hall; [reflexivity|].
  inversion Hall as [|? ? Hw Hrest]; subst.
  pose proof (f32_bytes_roundtrip w Hw) as H.
  unfold as_byte_slice in *. cbn [flat_map]. unfold f32_bytes at 1.
  change (8 * 0)%Z with 0%Z. change (8 * 1)%Z with 8%Z.
  change (8 * 2)%Z with 16%Z. change (8 * 3)%Z with 24%Z.
  destruct le; cbn [app from_byte_slice]; rewrite IH by exact Hrest; f_equal;
    unfold f32_from_bytes; lia.
Qed.

Lemma as_byte_slice_roundtrip_witness :
  from_byte_slice false (as_byte_slice false sample_f32) = sample_f32.
Proof.
  apply as_byte_slice_roundtrip.
  repeat constructor; vm_compute; discriminate.
Defined.

(** The configuration panics of [init_synth]. *)
Definition is_config_panic {A} (r : Exec A) : bool :=
  match r with
  | Panic MultiLingualPanic | Panic MultiSpeakerPanic => true
  | _ => false
  end.

Definition NoCfg {A} (m : M A) : Prop := forall st, is_config_panic (fst (m st)) = false.

Lemma nocfg_bind_at {A B} (m : M A) (k : A -> M B) (st : State) :
  is_config_panic (fst (m st)) = false -> (forall a, NoCfg (k a)) ->
  is_config_panic (fst (bind m k st)) = false.
Proof.
  intros Hm Hk. unfold bind. destruct (m st) as [[a|p] st'] eqn:E; simpl in *; [apply Hk|exact Hm].
Qed.

Lemma nocfg_bind {A B} (m : M A) (k : A -> M B) :
  NoCfg m -> (forall a, NoCfg (k a)) -> NoCfg (bind m k).
Proof. intros Hm Hk st. apply nocfg_bind_at; [apply Hm|exact Hk]. Qed.

Lemma nocfg_ret {A} (a : A) : NoCfg (ret a).
Proof. intros st. reflexivity. Qed.

Lemma nocfg_with_settings_lock {A} (k : Settings -> M A) :
  (forall g, NoCfg (k g)) -> NoCfg (with_settings_lock k).
Proof.
  intros Hk st. unfold with_settings_lock. destruct (settings_poisoned st); [reflexivity|].
  specialize (Hk (settings st) st).
  destruct (k (settings st) st) as [[a|p] st'] eqn:E; exact Hk.
Qed.

Lemma nocfg_synthesise (text : string) (s : Synth) : NoCfg (synthesise text s).
Proof.
  unfold synthesise. apply nocfg_bind.
  - apply nocfg_with_settings_lock. intros g. apply nocfg_ret.
  - intros kw. apply nocfg_bind; [intros st; reflexivity|intros _].
    intros st. destruct (tts s kw); reflexivity.
Qed.

(** [with_synth] on a stored handle runs no validation. *)
Lemma nocfg_with_synth_stored {R} (be : Backend) (f : Synth -> M R) (st : State) :
  synth st <> None -> (forall s, NoCfg (f s)) ->
  is_config_panic (fst (with_synth be f st)) = false.
Proof.
  intros Hs Hf. unfold with_synth, with_synth_lock.
  destruct (synth_poisoned st); [reflexivity|].
  destruct (synth st) as [h|]; [|congruence].
  unfold bind at 1, ret. cbv beta iota.
  specialize (Hf h st). destruct (f h st) as [[a|p] st'] eqn:E; exact Hf.
Qed.

(** The configuration checks of [init_synth] run only when the session is
    constructed: once a handle is stored, no call of the element raises the
    multi-lingual or multi-speaker panic, whatever the settings have become
    since (for instance [language] reset to NULL on a multi-lingual model). *)
Theorem stored_session_no_config_panic (env : Env) (be : Backend) (st : State) :
  synth st <> None ->
  is_config_panic (fst (generate_output env be st)) = false
  /\ (forall d f, is_config_panic (fst (transform_caps env be d f st)) = false).
Proof.
  intros Hs. split.
  - unfold generate_output, take_queued_buffer. unfold bind at 1. cbv beta iota.
    destruct (queued st) as [b|]; [|reflexivity].
    destruct (negb (readable b)); [reflexivity|]. cbv zeta.
    destruct (negb (utf8_valid _)); [reflexivity|].
    apply nocfg_bind_at.
    + apply nocfg_with_synth_stored; [destruct st; exact Hs|apply nocfg_synthesise].
    + intros [audio|]; [|apply nocfg_ret].
      apply nocfg_bind; [intros st'; destruct (_ && _); reflexivity|intros _].
      destruct (negb (alloc_ok env)); apply nocfg_ret.
  - intros d f. unfold transform_caps.
    apply nocfg_bind_at; [|intros c; apply nocfg_ret].
    destruct (pad_direction_eqb d Src); [reflexivity|].
    apply nocfg_bind_at; [|intros r; apply nocfg_ret].
    apply nocfg_with_synth_stored; [exact Hs|].
    intros s. apply nocfg_bind; [intros st'; reflexivity|intros _].
    intros st'. unfold extract_u64. destruct (in_range _ _ _); reflexivity.
Qed.

Lemma stored_session_no_config_panic_witness :
  fst (init_synth multilingual_backend new_state) = Panic MultiLingualPanic
  /\ is_config_panic
       (fst (generate_output env_quiet_le multilingual_backend
               (set_synth (Some multilingual_synth) (set_queued (Some hello_buffer) new_state))))
     = false.
Proof.
  split; [reflexivity|].
  exact (proj1 (stored_session_no_config_panic env_quiet_le multilingual_backend
                  (set_synth (Some multilingual_synth) (set_queued (Some hello_buffer) new_state))
                  ltac:(discriminate))).
Defined.

(** Every direction but [Src] (so [Unknown] too) takes the audio branch. *)
Lemma transform_caps_not_src (env : Env) (be : Backend) (d : PadDirection) (f : option Caps) :
  d <> Src -> transform_caps env be d f = transform_caps env be Sink f.
Proof. intros Hd. destruct d; [reflexivity|congruence|reflexivity]. Qed.

(** On a ready session the audio side of [transform_caps] (for [Sink] and
    [Unknown] alike) answers the single audio structure at the rate after the
    [as i32] cast, intersected with the filter when there is one; that
    structure lies within the [src] pad template exactly when the cast rate
    is positive: a backend rate of [0], or one that wraps to a negative
    [i32], gives caps outside it. *)
Theorem audio_caps_within_src_template (env : Env) (be : Backend) (st : State) (h : Synth)
  (d : PadDirection) (maybe_filter : option Caps) :
  synth st = Some h -> synth_poisoned st = false -> d <> Src ->
  (0 <= output_sample_rate h < 2 ^ 64)%Z ->
  fst (transform_caps env be d maybe_filter st)
  = Done (Some (match maybe_filter with
                | Some filter =>
                  intersect_first filter
                    (CapsList [audio_structure (host_le env) (u64_as_i32 (output_sample_rate h))])
                | None =>
                  CapsList [audio_structure (host_le env) (u64_as_i32 (output_sample_rate h))]
                end))
  /\ structure_is_subset (audio_structure (host_le env) (u64_as_i32 (output_sample_rate h)))
                         (src_template_structure (host_le env))
     = in_range 1 i32_max (u64_as_i32 (output_sample_rate h)).
Proof.
  intros Hs Hp Hd Hr. split.
  - rewrite (transform_caps_not_src env be d maybe_filter Hd).
    rewrite (transform_caps_sink_ready env be st h maybe_filter Hs Hp Hr). reflexivity.
  - generalize (u64_as_i32 (output_sample_rate h)) as i. intros i.
    unfold structure_is_subset, value_is_subset. cbn -[in_range i32_max].
    destruct (host_le env); cbn -[in_range i32_max];
      destruct (in_range 1 i32_max i); cbn; rewrite ?Z.eqb_refl; reflexivity.
Qed.

Lemma audio_caps_within_src_template_witness :
  structure_is_subset (audio_structure true (u64_as_i32 (2 ^ 31)))
                      (src_template_structure true) = false
  /\ fst (transform_caps env_quiet_le sample_backend Unknown None (ready_state None))
     = Done (Some (CapsList [audio_structure true 22050])).
Proof.
  split.
  - refine (eq_trans (proj2 (audio_caps_within_src_template env_quiet_le
              {| construct := fun _ => None |}
              (set_synth (Some {| synth_id := 3; is_multi_lingual := false;
                                  is_multi_speaker := false; output_sample_rate := (2 ^ 31)%Z;
                                  tts := fun _ => TtsErr |}) new_state)
              {| synth_id := 3; is_multi_lingual := false; is_multi_speaker := false;
                 output_sample_rate := (2 ^ 31)%Z; tts := fun _ => TtsErr |} Unknown None
              eq_refl eq_refl ltac:(discriminate) ltac:(simpl; lia))) _).
    vm_compute. reflexivity.
  - refine (eq_trans (proj1 (audio_caps_within_src_template env_quiet_le sample_backend
              (ready_state None) sample_synth Unknown None
              eq_refl eq_refl ltac:(discriminate) ltac:(simpl; lia))) _).
    vm_compute. reflexivity.
Defined.

Lemma atom_eqb_sym (a b : Atom) : atom_eqb a b = atom_eqb b a.
Proof.
  destruct a, b; simpl; [apply Z.eqb_sym|reflexivity|reflexivity|apply String.eqb_sym].
Qed.

(** A value that does not contain the fixed value [a] does not intersect it. *)
Lemma value_intersect_excluded (v : Value) (a : Atom) :
  atom_in a v = false -> value_intersect v (VAtom a) = None.
Proof.
  destruct v as [b|lo hi|l]; simpl; intros H.
  - rewrite atom_eqb_sym, H. reflexivity.
  - rewrite H. reflexivity.
  - unfold intersect_list.
    assert (Hacc : forall acc, existsb (atom_eqb a) l = false ->
              fold_left (fun acc b => if atom_eqb b a then list_acc acc b else acc) l acc = acc).
    { induction l as [|b l IH]; simpl; intros acc Hl; [reflexivity|].
      apply orb_false_iff in Hl as [Hb Hl]. rewrite atom_eqb_sym, Hb. exact (IH Hl acc Hl). }
    exact (Hacc None H).
Qed.

Lemma intersect_fields_excluded (k : string) (v : Value) (a : Atom)
  (fs1 fs2 : list (string * Value)) :
  In (k, v) fs1 -> field_lookup k fs2 = Some (VAtom a) -> atom_in a v = false ->
  intersect_fields fs1 fs2 = None.
Proof.
  intros Hin Hk Ha. induction fs1 as [|[k1 v1] fs1 IH]; [destruct Hin|].
  simpl. destruct Hin as [E|Hin].
  - injection E as -> ->. rewrite Hk, value_intersect_excluded by exact Ha. reflexivity.
  - rewrite (IH Hin).
    destruct (field_lookup k1 fs2) as [v2|]; [destruct (value_intersect v1 v2)|]; reflexivity.
Qed.

(** The structures of a filter that cannot meet the audio caps of rate [r]:
    another media type, or a [rate] field that excludes [r]. *)
Definition excludes_rate (r : Z) (s : Structure) : Prop :=
  st_name s <> "audio/x-raw"%string
  \/ exists v, In ("rate"%string, v) (st_fields s) /\ atom_in (AInt r) v = false.

(** A downstream filter none of whose structures admits the backend's rate
    makes the audio-side negotiation answer empty caps (not a failure, and
    not caps at another rate). *)
Theorem transform_caps_rate_excluded (env : Env) (be : Backend) (st : State) (h : Synth)
  (d : PadDirection) (filter : list Structure) :
  synth st = Some h -> synth_poisoned st = false -> d <> Src ->
  (0 <= output_sample_rate h < 2 ^ 64)%Z ->
  (forall s, In s filter -> excludes_rate (u64_as_i32 (output_sample_rate h)) s) ->
  fst (transform_caps env be d (Some (CapsList filter)) st) = Done (Some (CapsList [])).
Proof.
  intros Hs Hp Hd Hr Hf.
  rewrite (transform_caps_not_src env be d _ Hd).
  rewrite (transform_caps_sink_ready env be st h _ Hs Hp Hr). simpl fst. f_equal. f_equal.
  revert Hf. generalize (u64_as_i32 (output_sample_rate h)) as r. intros r Hf'.
  set (s2 := audio_structure (host_le env) r).
  assert (Hnone : forall s1, In s1 filter -> structure_intersect s1 s2 = None).
  { intros s1 Hin. unfold structure_intersect.
    destruct (Hf' s1 Hin) as [Hn|[v [Hv Ha]]].
    - destruct (String.eqb (st_name s1) (st_name s2)) eqn:E; [|reflexivity].
      apply String.eqb_eq in E. exfalso. apply Hn. rewrite E. reflexivity.
    - destruct (negb _); [reflexivity|].
      rewrite (intersect_fields_excluded "rate" v (AInt r) (st_fields s1) (st_fields s2)
                 Hv eq_refl Ha). reflexivity. }
  destruct filter as [|s1 l1]; [reflexivity|].
  unfold intersect_first.
  assert (Hfold : forall l dest, (forall s, In s l -> In s (s1 :: l1)) ->
            fold_left (fun dest s1 => match structure_intersect s1 s2 with
                                      | Some i => merge_structure dest i
                                      | None => dest end) l dest = dest).
  { induction l as [|t l IH]; simpl; intros dest Hl; [reflexivity|].
    rewrite (Hnone t (Hl t (or_introl eq_refl))). apply IH. intros s Hs'. apply Hl. right. exact Hs'. }
  f_equal. exact (Hfold (s1 :: l1) [] (fun s H => H)).
Qed.

Lemma transform_caps_rate_excluded_witness :
  fst (transform_caps env_quiet_le sample_backend Sink
         (Some (CapsList [{| st_name := "audio/x-raw";
                             st_fields := [("rate"%string, VList [AInt 44100; AInt 48000])] |};
                          {| st_name := "video/x-raw"; st_fields := [] |}]))
         (ready_state None))
  = Done (Some (CapsList [])).
Proof.
  apply (transform_caps_rate_excluded env_quiet_le sample_backend (ready_state None) sample_synth);
    [reflexivity|reflexivity|discriminate|simpl; lia|].
  intros s [<-|[<-|[]]].
  - right. exists (VList [AInt 44100; AInt 48000]). split; [left; reflexivity|].
    vm_compute. reflexivity.
  - left. discriminate.
Defined.

(** When the backend constructor fails ([TTS(...)] raises), [init_synth]'s
    [unwrap] panics while only the synth guard is held: the session mutex is
    poisoned, the settings mutex is not, one construction is recorded, the
    properties stay readable and writable, and every later audio-side
    negotiation panics on the lock without a second construction. *)
Theorem construct_failure_poisons_session (env : Env) (be : Backend) (st : State)
  (d : PadDirection) (f : option Caps) :
  synth st = None -> synth_poisoned st = false -> settings_poisoned st = false ->
  construct be (init_kwargs (settings st)) = None -> d <> Src ->
  let st1 := poison_synth (add_call (EvConstruct (init_kwargs (settings st))) st) in
  transform_caps env be d f st = (Panic UnwrapFailed, st1)
  /\ settings_poisoned st1 = false
  /\ count_constructs (calls st1) = S (count_constructs (calls st))
  /\ (forall n, fst (property n st1) = fst (property n st))
  /\ (forall p, p <> PModel None -> fst (set_property p st1) = Done tt)
  /\ (forall d' f', d' <> Src -> transform_caps env be d' f' st1 = (Panic PoisonedLock, st1)).
Proof.
  intros Hs Hsp Hp Hc Hd st1.
  assert (Hi : init_synth be st
               = (Panic UnwrapFailed, add_call (EvConstruct (init_kwargs (settings st))) st)).
  { unfold init_synth, with_settings_lock, bind, ret, modify, unwrap, panic.
    destruct st as [g gp sy sp q cs]; simpl in *. subst gp. cbv beta iota.
    unfold init_kwargs in Hc. simpl. rewrite Hc. reflexivity. }
  split; [|split; [|split; [|split; [|split]]]].
  - rewrite (transform_caps_not_src env be d f Hd). unfold transform_caps. simpl pad_direction_eqb.
    cbv iota. unfold bind at 1 2. rewrite (with_synth_init_panic be _ st _ _ Hs Hsp Hi).
    reflexivity.
  - subst st1. destruct st; simpl in *. exact Hp.
  - subst st1. destruct st; simpl. rewrite count_constructs_app. simpl. lia.
  - intros n. subst st1. destruct st; simpl in *. subst. reflexivity.
  - intros p Hm. subst st1. destruct st; simpl in *. subst.
    destruct p as [[m|]|v|v|v|v]; [reflexivity|congruence|reflexivity..].
  - intros d' f' Hd'. rewrite (transform_caps_not_src env be d' f' Hd').
    subst st1. reflexivity.
Qed.

Lemma construct_failure_poisons_session_witness :
  transform_caps env_quiet_le {| construct := fun _ => None |} Sink None new_state
  = (Panic UnwrapFailed,
     poison_synth (add_call (EvConstruct (init_kwargs (settings new_state))) new_state)).
Proof.
  exact (proj1 (construct_failure_poisons_session env_quiet_le {| construct := fun _ => None |}
                  new_state Sink None eq_refl eq_refl eq_refl eq_refl ltac:(discriminate))).
Defined.
